(** * poinsseta: the effective-area event loop and its result entity

    A shallow embedding of [effective_area.py]: the [EffectiveArea] record,
    its combination ([__add__]), the Monte-Carlo loop [calculate] with its
    choice of the field parameterization ([altitude_file]), and the
    loaders [from_file] / [from_files].

    Conventions of the embedding.
    - A [float64] is an exact rational ([Qc], canonical, so that Python's
      [==] on numbers is Leibniz equality).  Rounding and infinities are
      outside the model: a division by a zero trial count, which NumPy
      answers with inf/nan and a warning, has no faithful image here.
      Where NumPy stores NaN for a masked mean, the model stores a
      parameter [nan] of which nothing is known.
    - An [int64] array element is a [Z]; where NumPy adds two of them the
      wrap-around is written out ([int64_wrap]).
    - A 1-D [ndarray] is a [list]; the 2-D [effective_area] is the list of
      its rows (an array without rows carries no width).
    - A NumPy masked array is a list of [option]: [None] is a masked entry.
      A plain array is the masked array without masked entries.
    - A Python exception is a value of [Error]; code that may raise lives
      in the error monad [Result].
    - Objects have no identity: two arrays with the same entries are one
      value.  Where the outcome of the source depends on whether two
      arrays are one object (the comparison of the args in [__add__]), and
      where it depends on a scalar fitting [int64] (the trial counts of
      [calculate]), the statements carry the condition or speak of the
      results returned. *)

From Stdlib Require Import ZArith QArith Qcanon Qabs Qcabs Lqa.
From stdpp Require Import base option list numbers strings gmap.

Local Open Scope Z_scope.
Local Open Scope Qc_scope.

(* [Qcabs] is written out; square brackets are lists throughout. *)
Disable Notation "[ q ]" := (Qcabs q) : Qc_scope.

(** ** Numbers *)

(** The rational [n/d] as a float literal of the source. *)
Definition qc (n : Z) (d : positive) : Qc := Q2Qc (n # d).

(** [float(n)] for an integer [n]. *)
Definition float_of_int (n : Z) : Qc := Qc_of_Z n.

(** Two's-complement reduction of an integer to 64 bits. *)
Definition int64_wrap (z : Z) : Z := ((z + 2 ^ 63) `mod` 2 ^ 64 - 2 ^ 63)%Z.

(** [a + b] on [int64] array elements. *)
Definition int64_add (a b : Z) : Z := int64_wrap (a + b).

(** The range of an [int64]. *)
Definition int64_range (z : Z) : Prop := (- 2 ^ 63 ≤ z < 2 ^ 63)%Z.

(** [np.isclose(a, b)] with NumPy's default tolerances
    ([rtol = 1e-05], [atol = 1e-08]); the bound is relative to [b]. *)
Definition rtol : Qc := qc 1 100000.
Definition atol : Qc := qc 1 100000000.
Definition isclose (a b : Qc) : bool :=
  bool_decide (Qcabs (a - b) ≤ atol + rtol * Qcabs b).

(** ** Exceptions and the error monad *)

Inductive Error : Set :=
  | ElevationMismatch   (* ValueError: "... evaluated at the same elevation angles" *)
  | ArgsMismatch        (* ValueError: "... generated with different arguments!" *)
  | BroadcastError      (* ValueError: operands could not be broadcast together *)
  | NoFilenames         (* ValueError: "No filenames were given to `from_files`." *)
  | FileNotFoundError   (* open() on a missing file *)
  | KeyError            (* subscript of a dict with an absent key *)
  | IndexError          (* subscript of an array past its end *)
  | UnboundLocalError   (* read of a local variable that was never assigned *).

Inductive Result (A : Type) : Type :=
  | Ok (a : A)
  | Raise (e : Error).
Arguments Ok {A} a.
Arguments Raise {A} e.

#[global] Instance Result_ret : MRet Result := λ A a, Ok a.
#[global] Instance Result_bind : MBind Result := λ A B f m,
  match m with Ok a => f a | Raise e => Raise e end.
#[global] Instance Result_fmap : FMap Result := λ A B f m,
  match m with Ok a => Ok (f a) | Raise e => Raise e end.

(** [o] if present, else raise [e]. *)
Definition or_raise {A} (e : Error) (o : option A) : Result A :=
  match o with Some a => Ok a | None => Raise e end.

(** The two errors [__add__] raises itself, as opposed to those of NumPy. *)
Definition configuration_mismatch {A} (r : Result A) : Prop :=
  r = Raise ElevationMismatch ∨ r = Raise ArgsMismatch.

(** ** NumPy arrays *)

(** Run the computations of a list in order; the first exception wins. *)
Fixpoint collect {A} (rs : list (Result A)) : Result (list A) :=
  match rs with
  | [] => Ok []
  | r :: rs => x ← r; xs ← collect rs; Ok (x :: xs)
  end.

(** A binary elementwise operation along one axis, with NumPy's
    broadcasting rule: equal lengths pair up, a length-one operand is
    stretched, anything else raises. *)
Definition np_broadcast {A B C} (f : A → B → Result C)
    (xs : list A) (ys : list B) : Result (list C) :=
  if decide (length xs = length ys) then collect (zip_with f xs ys)
  else match xs, ys with
       | x :: [], _ => collect (f x <$> ys)
       | _, y :: [] => collect ((λ x, f x y) <$> xs)
       | _, _ => Raise BroadcastError
       end.

(** [a + b] on 1-D [int64] arrays. *)
Definition np_add_int (xs ys : list Z) : Result (list Z) :=
  np_broadcast (λ a b, Ok (int64_add a b)) xs ys.

(** [a + b] on 1-D and on 2-D [float64] arrays. *)
Definition np_add (xs ys : list Qc) : Result (list Qc) :=
  np_broadcast (λ a b, Ok (a + b)) xs ys.
Definition np_add2 (xs ys : list (list Qc)) : Result (list (list Qc)) :=
  np_broadcast np_add xs ys.

(** [0.5 * (a + b)] on 1-D and on 2-D arrays. *)
Definition average (xs ys : list Qc) : Result (list Qc) :=
  fmap (M:=list) (Qcmult (qc 1 2)) <$> np_add xs ys.
Definition average2 (xs ys : list (list Qc)) : Result (list (list Qc)) :=
  fmap (M:=list) (fmap (M:=list) (Qcmult (qc 1 2))) <$> np_add2 xs ys.

(** [np.isclose(a, b).all()] on two 1-D arrays of the same size. *)
Definition isclose_all (xs ys : list Qc) : bool :=
  forallb id (zip_with isclose xs ys).

(** ** The result entity *)

(** A value of the [args] dictionary: a number, or an array (the gain
    table, whatever [antenna.directivity] returns).

    [self.args != other.args] compares the values under each key with
    [==] and takes the truth of the outcome.  That is the comparison of
    the contents when the two values are numbers, when they are arrays of
    one entry each, and when they are one and the same object.  On two
    distinct arrays of several entries it is not: NumPy refuses to decide
    the truth of their comparison and raises.  Objects have no identity
    in this embedding, so [__add__] below compares contents: it is the
    [__add__] of the source on operands that share their arrays or whose
    args are decided by content ([args_decided_by_content]), and wherever
    the source returns a result.  What is stated of [__add__] without
    these conditions is stated of the results it returns. *)
Inductive Value : Type :=
  | VNum (q : Qc)
  | VArr (a : list Qc).

#[global] Instance Value_eq_dec : EqDecision Value.
Proof. solve_decision. Defined.

Record EffectiveArea : Type := mkEffectiveArea {
  N0 : list Z;                      (* trials thrown, per elevation *)
  elevation : list Qc;              (* elevation angles, degrees *)
  effective_area : list (list Qc);  (* (elevation, azimuth) grid *)
  geometric : list Qc;
  pexit : list Qc;
  pdecay : list Qc;
  ptrigger : list Qc;
  args : gmap string Value;
}.

(** [EffectiveArea.__add__]. *)
Definition __add__ (self other : EffectiveArea) : Result EffectiveArea :=
  if negb (bool_decide (length (elevation self) = length (elevation other)))
  then Raise ElevationMismatch
  else if negb (isclose_all (elevation self) (elevation other))
  then Raise ElevationMismatch
  else
    N0' ← np_add_int (N0 self) (N0 other);
    if bool_decide (args self ≠ args other) then Raise ArgsMismatch
    else
      effective_area' ← average2 (effective_area self) (effective_area other);
      geometric' ← average (geometric self) (geometric other);
      pexit' ← average (pexit self) (pexit other);
      pdecay' ← average (pdecay self) (pdecay other);
      ptrigger' ← average (ptrigger self) (ptrigger other);
      Ok (mkEffectiveArea N0' (elevation self) effective_area' geometric'
            pexit' pdecay' ptrigger' (args self)).

(** ** Masked arrays *)

(** [a * b] on two entries: masked as soon as one operand is. *)
Definition ma_mul (a b : option Qc) : option Qc :=
  x ← a; y ← b; Some (x * y).

(** The sum of a plain array. *)
Definition np_sum (xs : list Qc) : Qc := foldr Qcplus 0 xs.

(** The entries of a masked array that are not masked. *)
Definition compressed {A} (xs : list (option A)) : list A := omap id xs.

(** [np.sum] of a masked 1-D array: the sum of the entries that are not
    masked, and the masked constant when there is none. *)
Definition ma_sum (xs : list (option Qc)) : option Qc :=
  match compressed xs with
  | [] => None
  | ys => Some (np_sum ys)
  end.

(** [np.mean] of a masked 1-D array: sum over count of the entries that
    are not masked, and the masked constant when there is none. *)
Definition ma_mean (xs : list (option Qc)) : option Qc :=
  match compressed xs with
  | [] => None
  | ys => Some (np_sum ys / float_of_int (Z.of_nat (length ys)))
  end.

(** What [a[i, :] = x] stores in a row of a plain [float64] array: [x],
    and the data of the masked constant, [0.0], when [x] is masked. *)
Definition stored_row (x : option Qc) : Qc := default 0 x.

(** What [a[i] = x] stores in an entry of a plain [float64] array: [x],
    and, when [x] is the masked constant, its conversion to a float, which
    is NaN (with a warning).  NaN is no rational: [nan] stands for it. *)
Definition stored_item (nan : Qc) (x : option Qc) : Qc := default nan x.

(** [True] is [1.0] and [False] is [0.0] in arithmetic. *)
Definition float_of_bool (b : bool) : Qc := if b then 1 else 0.

(** [a[mask] = v]: the selected entries become [v], unmasked. *)
Definition assign_where {A} (mask : list bool) (v : A)
    (xs : list (option A)) : list (option A) :=
  zip_with (λ (m : bool) x, if m then Some v else x) mask xs.

(** ** The Monte-Carlo loop *)

(** One trial that passed the geometric cut, with what the collaborators
    report for it: the entries, at one index, of [Ag.dot], [Pexit],
    [Pdecay], [intensity], [D] and [theta].  [Pexit] is masked where no tau
    exits; the arrays computed from the masked [Etau] may inherit masks. *)
Record Trial : Type := mkTrial {
  dot : Qc;
  Pexit : option Qc;
  Pdecay : option Qc;
  intensity : option Qc;
  D : Qc;
  theta : Qc;
}.

(** The batch of one elevation: [Ag.area] and the trials, one per entry of
    [Ag.emergence]. *)
Record Batch : Type := mkBatch {
  area : Qc;
  trials : list Trial;
}.

(** The parameter [N]: an integer, or an array. *)
Inductive TrialCounts : Type :=
  | NInt (n : Z)
  | NArray (a : list Z).

(** The parameters of [calculate]. *)
Record Config : Type := mkConfig {
  Enu : Qc;
  elev : list Qc;
  altitude : Qc;
  prototype : Z;
  maxview : Qc;
  icethickness : Z;
  N : TrialCounts;
  antennas : Z;
  minfreq : Qc;
  maxfreq : Qc;
  trigger_SNR : Qc;
  azimuths : list Z;
}.

(** The default of [altitude], also the constant of [from_files]. *)
Definition default_altitude : Qc := qc 387553 100000.

(** The trigger threshold on the intensity, [0.0000000024]. *)
Definition intensity_threshold : Qc := qc 24 10000000000.

(** The altitudes at which a field parameterization is tabulated. *)
Definition altitudes : list Qc := [qc 1 2; 1; qc 2 1; qc 3 1; qc 4 1; qc 37 1].

(** [ndarray.argmin]: the index of the first occurrence of the minimum.
    [argmin_from best ibest i xs] scans [xs], whose head has index [i],
    with [best] at [ibest] the least entry so far.  NumPy raises on an
    empty array. *)
Fixpoint argmin_from (best : Qc) (ibest i : nat) (xs : list Qc) : nat :=
  match xs with
  | [] => ibest
  | x :: xs =>
      if bool_decide (x < best) then argmin_from x i (S i) xs
      else argmin_from best ibest (S i) xs
  end.

Definition np_argmin (xs : list Qc) : option nat :=
  match xs with
  | [] => None
  | x :: xs => Some (argmin_from x 0 1 xs)
  end.

(** [altitudes[np.abs(altitudes - altitude).argmin()]]: the altitude
    whose field parameterization [calculate] loads. *)
Definition altitude_file (altitude : Qc) : option Qc :=
  i_altitude ← np_argmin ((λ a, Qcabs (a - altitude)) <$> altitudes);
  altitudes !! i_altitude.

(** The local variables the loop writes. *)
Record Locals : Type := mkLocals {
  loc_effective_area : list (list Qc);
  loc_geometric : list Qc;
  loc_pexit : list Qc;
  loc_pdecay : list Qc;
  loc_ptrigger : list Qc;
  loc_gain : option Value;   (* [None]: not assigned yet *)
}.

Section calculate.
(** The collaborators.  They are external and several of them are
    random: [batch i] is their joint outcome at iteration [i] of the
    loop (geometry sampler, tau-exit table, decay sampler, with the
    transcendental functions of NumPy applied). *)
Variable batch : nat → Batch.
Variable distance_to_horizon : Qc → Z → Qc.
Variable horizon_angle : Qc → Z → Qc.
Variable directivity : Z → list Z → Value.
Variable np_degrees : Qc → Qc.

(** The stand-in for NaN, a number of which nothing is assumed. *)
Variable nan : Qc.

Variable cfg : Config.

(** [N * np.ones(elev.size, dtype=int)] unless [N] is an array already.
    This is the array for a scalar [N] in the range of [int64]
    ([N_fits_int64]); for another scalar NumPy raises at the
    multiplication, before the loop, and there is no array. *)
Definition trial_counts : list Z :=
  match N cfg with
  | NInt n => replicate (length (elev cfg)) n
  | NArray a => a
  end.

(** [Ptrig = intensity > 0.0000000024]. *)
Definition raw_trigger (ts : list Trial) : list (option bool) :=
  (λ t, (λ x, bool_decide (intensity_threshold < x)) <$> intensity t) <$> ts.

(** [invisible = np.logical_and(beyond, below)]. *)
Definition invisible (ts : list Trial) : list bool :=
  let beyond :=
    (λ t, bool_decide (distance_to_horizon (altitude cfg) (icethickness cfg) < D t)) <$> ts in
  let below :=
    (λ t, bool_decide (theta t < horizon_angle (altitude cfg) (icethickness cfg))) <$> ts in
  zip_with andb beyond below.

(** [theta > 0.0]. *)
Definition above (ts : list Trial) : list bool :=
  (λ t, bool_decide (0 < theta t)) <$> ts.

(** [Ptrig] after the two cuts. *)
Definition trigger (ts : list Trial) : list (option bool) :=
  let Ptrig := raw_trigger ts in
  let Ptrig := assign_where (invisible ts) false Ptrig in
  assign_where (above ts) false Ptrig.

(** [Ag.area * Ag.dot * Pexit * Pdecay]. *)
Definition weights (Ag : Batch) : list (option Qc) :=
  (λ t, ma_mul (ma_mul (Some (area Ag * dot t)) (Pexit t)) (Pdecay t))
    <$> trials Ag.

(** [(Ag.area * Ag.dot * Pexit * Pdecay) * Ptrig]. *)
Definition contributions (Ag : Batch) (Ptrig : list (option bool)) :
    list (option Qc) :=
  zip_with (λ w p, ma_mul w (float_of_bool <$> p)) (weights Ag) Ptrig.

(** The five values the body of the loop stores for a batch that is not
    empty. *)
Definition bin_geometric (ntrials : Qc) (Ag : Batch) : Qc :=
  (area Ag * np_sum (dot <$> trials Ag)) / ntrials.
Definition bin_pexit (Ag : Batch) : Qc :=
  stored_item nan (ma_mean (Pexit <$> trials Ag)).
Definition bin_pdecay (Ag : Batch) : Qc :=
  stored_item nan (ma_mean (Pdecay <$> trials Ag)).
Definition bin_ptrigger (Ag : Batch) : Qc :=
  stored_item nan
    (ma_mean (fmap (M:=option) float_of_bool <$> trigger (trials Ag))).
Definition bin_effective_area (ntrials : Qc) (Ag : Batch) : Qc :=
  stored_row
    ((λ s, s / ntrials) <$> ma_sum (contributions Ag (trigger (trials Ag)))).

(** The body of [for i in np.arange(elev.shape[0])]. *)
Definition iteration (i : nat) (loc : Locals) : Result Locals :=
  Ni ← or_raise IndexError (trial_counts !! i);
  let Ag := batch i in
  if bool_decide (trials Ag = []) then Ok loc
  else
    let wrapped_azimuths := (λ a, a `mod` 360)%Z <$> azimuths cfg in
    let gain := directivity (prototype cfg) wrapped_azimuths in
    let ntrials := float_of_int Ni in
    Ok {| loc_geometric := <[i := bin_geometric ntrials Ag]> (loc_geometric loc);
          loc_pexit := <[i := bin_pexit Ag]> (loc_pexit loc);
          loc_pdecay := <[i := bin_pdecay Ag]> (loc_pdecay loc);
          loc_ptrigger := <[i := bin_ptrigger Ag]> (loc_ptrigger loc);
          loc_effective_area :=
            <[i := replicate (length (azimuths cfg)) (bin_effective_area ntrials Ag)]>
              (loc_effective_area loc);
          loc_gain := Some gain |}.

Fixpoint loop (bins : list nat) (loc : Locals) : Result Locals :=
  match bins with
  | [] => Ok loc
  | i :: bins => loc' ← iteration i loc; loop bins loc'
  end.

(** The arrays of zeros the loop starts from; [gain] is not bound. *)
Definition initial : Locals :=
  let n := length (elev cfg) in
  {| loc_effective_area := replicate n (replicate (length (azimuths cfg)) 0);
     loc_geometric := replicate n 0;
     loc_pexit := replicate n 0;
     loc_pdecay := replicate n 0;
     loc_ptrigger := replicate n 0;
     loc_gain := None |}.

(** The dictionary of the arguments. *)
Definition make_args (gain : Value) : gmap string Value :=
  list_to_map
    [ ("Enu"%string, VNum (Enu cfg));
      ("altitude"%string, VNum (altitude cfg));
      ("prototype"%string, VNum (float_of_int (prototype cfg)));
      ("maxview"%string, VNum (maxview cfg));
      ("icethickness"%string, VNum (float_of_int (icethickness cfg)));
      ("antennas"%string, VNum (float_of_int (antennas cfg)));
      ("gain"%string, gain);
      ("trigger_SNR"%string, VNum (trigger_SNR cfg));
      ("minfreq"%string, VNum (minfreq cfg));
      ("maxfreq"%string, VNum (maxfreq cfg)) ].

(** The two cuts read trial by trial: a trial is suppressed when it is
    both beyond and below the horizon, or above the horizontal. *)
Definition suppressed (t : Trial) : bool :=
  bool_decide (distance_to_horizon (altitude cfg) (icethickness cfg) < D t)
    && bool_decide (theta t < horizon_angle (altitude cfg) (icethickness cfg))
  || bool_decide (0 < theta t).

(** The trigger indicator and the contribution of one trial. *)
Definition trial_trigger (t : Trial) : option bool :=
  if suppressed t then Some false
  else (λ x, bool_decide (intensity_threshold < x)) <$> intensity t.
Definition trial_weight (Ag : Batch) (t : Trial) : option Qc :=
  ma_mul (ma_mul (Some (area Ag * dot t)) (Pexit t)) (Pdecay t).
Definition trial_contribution (Ag : Batch) (t : Trial) : option Qc :=
  ma_mul (trial_weight Ag t) (float_of_bool <$> trial_trigger t).

(** What one iteration stores at index [i] for a batch with trials. *)
Definition written (Ni : Z) (i : nat) :
    option Qc * option Qc * option Qc * option Qc * option (list Qc) :=
  (Some (bin_geometric (float_of_int Ni) (batch i)),
   Some (bin_pexit (batch i)),
   Some (bin_pdecay (batch i)),
   Some (bin_ptrigger (batch i)),
   Some (replicate (length (azimuths cfg))
           (bin_effective_area (float_of_int Ni) (batch i)))).

Definition calculate : Result EffectiveArea :=
  loc ← loop (seq 0 (length (elev cfg))) initial;
  gain ← or_raise UnboundLocalError (loc_gain loc);
  Ok (mkEffectiveArea trial_counts (np_degrees <$> elev cfg)
        (loc_effective_area loc) (loc_geometric loc) (loc_pexit loc)
        (loc_pdecay loc) (loc_ptrigger loc) (make_args gain)).
End calculate.

(** The sum of the weights over [ntrials]: what [bin_effective_area]
    would be if every trial triggered. *)
Definition bin_untriggered (ntrials : Qc) (Ag : Batch) : Qc :=
  stored_row ((λ s, s / ntrials) <$> ma_sum (weights Ag)).

(** The batch without the trials at which no tau exited. *)
Definition drop_no_exit (Ag : Batch) : Batch :=
  {| area := area Ag;
     trials := filter (λ t, is_Some (Pexit t)) (trials Ag) |}.

(** ** Loading from files *)

(** [from_file]: the disk maps a file name to the result pickled there. *)
Definition from_file (disk : gmap string EffectiveArea) (filename : string) :
    Result EffectiveArea :=
  or_raise FileNotFoundError (disk !! filename).

(** The loop of [from_files] over [filenames[1:]]. *)
Fixpoint from_files_rest (disk : gmap string EffectiveArea)
    (filenames : list string) (Aeff : EffectiveArea) : Result EffectiveArea :=
  match filenames with
  | [] => Ok Aeff
  | f :: filenames =>
      A ← from_file disk f;
      a ← or_raise KeyError (args A !! "altitude"%string);
      if bool_decide (a = VNum default_altitude)
      then from_files_rest disk filenames Aeff
      else Aeff' ← __add__ Aeff A; from_files_rest disk filenames Aeff'
  end.

Definition from_files (disk : gmap string EffectiveArea)
    (filenames : list string) : Result EffectiveArea :=
  match filenames with
  | [] => Raise NoFilenames
  | f :: rest => Aeff ← from_file disk f; from_files_rest disk rest Aeff
  end.

(** ** Vocabulary of the statements *)

(** [a] is close to [b], the proposition [isclose] decides. *)
Definition close (a b : Qc) : Prop := Qcabs (a - b) ≤ atol + rtol * Qcabs b.

(** Two grids of the same length whose entries are pairwise close. *)
Definition numerically_close (xs ys : list Qc) : Prop := Forall2 close xs ys.

(** The invariant of the data model: every per-elevation array is as long
    as the elevation grid. *)
Definition well_shaped (A : EffectiveArea) : Prop :=
  length (N0 A) = length (elevation A) ∧
  length (effective_area A) = length (elevation A) ∧
  length (geometric A) = length (elevation A) ∧
  length (pexit A) = length (elevation A) ∧
  length (pdecay A) = length (elevation A) ∧
  length (ptrigger A) = length (elevation A).

(** Two results sampled on the same azimuth grid: their rows of
    effective area pair up, with equal widths. *)
Definition same_azimuths (A B : EffectiveArea) : Prop :=
  Forall2 (λ r s : list Qc, length r = length s)
    (effective_area A) (effective_area B).

(** Every row of a grid has [m] entries. *)
Definition rows_of_width (m : nat) (X : list (list Qc)) : Prop :=
  Forall (λ row, length row = m) X.

(** The unweighted mean of two numbers. *)
Definition mean2 (a b : Qc) : Qc := qc 1 2 * (a + b).

#[global] Instance Error_eq_dec : EqDecision Error.
Proof. solve_decision. Defined.
#[global] Instance Result_eq_dec `{EqDecision A} : EqDecision (Result A).
Proof. solve_decision. Defined.
#[global] Instance EffectiveArea_eq_dec : EqDecision EffectiveArea.
Proof. solve_decision. Defined.

(** The per-elevation entries of the local arrays at index [j]. *)
Definition bin_values (loc : Locals) (j : nat) :
    option Qc * option Qc * option Qc * option Qc * option (list Qc) :=
  (loc_geometric loc !! j, loc_pexit loc !! j, loc_pdecay loc !! j,
   loc_ptrigger loc !! j, loc_effective_area loc !! j).

(** All five local arrays have length [n]. *)
Definition shaped (n : nat) (loc : Locals) : Prop :=
  length (loc_geometric loc) = n ∧ length (loc_pexit loc) = n ∧
  length (loc_pdecay loc) = n ∧ length (loc_ptrigger loc) = n ∧
  length (loc_effective_area loc) = n.

(** The same five entries in a result. *)
Definition result_values (R : EffectiveArea) (j : nat) :
    option Qc * option Qc * option Qc * option Qc * option (list Qc) :=
  (geometric R !! j, pexit R !! j, pdecay R !! j, ptrigger R !! j,
   effective_area R !! j).

(** The claim of a bound by the stored factors, for one result:
    [effective_area[i, :] <= geometric[i] * pexit[i] * pdecay[i]]. *)
Definition bounded_by_factors (R : EffectiveArea) : Prop :=
  ∀ i row g pe pd,
    effective_area R !! i = Some row → geometric R !! i = Some g →
    pexit R !! i = Some pe → pdecay R !! i = Some pd →
    Forall (λ x, x ≤ g * pe * pd) row.

(** The exit probability of a bin as the mean over all [N[i]] trials in
    which a trial without exit counts as zero. *)
Definition pexit_over_all_trials (Ni : Z) (Ag : Batch) : Qc :=
  np_sum ((λ t, default 0 (Pexit t)) <$> trials Ag) / float_of_int Ni.

(** Two trials that differ at most in their intensity. *)
Definition same_but_intensity (t t' : Trial) : Prop :=
  dot t = dot t' ∧ Pexit t = Pexit t' ∧ Pdecay t = Pdecay t' ∧
  D t = D t' ∧ theta t = theta t'.

(** A recorded altitude equal to the constant of [from_files]. *)
Definition at_default_altitude (A : EffectiveArea) : Prop :=
  args A !! "altitude"%string = Some (VNum default_altitude).

(** The combination of a list of results into [Aeff], left to right. *)
Fixpoint add_all (Aeff : EffectiveArea) (As : list EffectiveArea) :
    Result EffectiveArea :=
  match As with
  | [] => Ok Aeff
  | A :: As => Aeff' ← __add__ Aeff A; add_all Aeff' As
  end.

(** [from_files] as the specification words it: an entry whose recorded
    altitude differs from the reference is skipped, an entry whose
    altitude matches is combined. *)
Fixpoint from_files_rest_spec (disk : gmap string EffectiveArea)
    (filenames : list string) (Aeff : EffectiveArea) : Result EffectiveArea :=
  match filenames with
  | [] => Ok Aeff
  | f :: filenames =>
      A ← from_file disk f;
      a ← or_raise KeyError (args A !! "altitude"%string);
      if bool_decide (a ≠ VNum default_altitude)
      then from_files_rest_spec disk filenames Aeff
      else Aeff' ← __add__ Aeff A; from_files_rest_spec disk filenames Aeff'
  end.
Definition from_files_spec (disk : gmap string EffectiveArea)
    (filenames : list string) : Result EffectiveArea :=
  match filenames with
  | [] => Raise NoFilenames
  | f :: rest => Aeff ← from_file disk f; from_files_rest_spec disk rest Aeff
  end.

(** Two batches that differ at most in the intensity of trials the cuts
    suppress. *)
Definition differ_where_suppressed (distance_to_horizon horizon_angle : Qc → Z → Qc)
    (cfg : Config) (Ag Ag' : Batch) : Prop :=
  area Ag = area Ag' ∧
  Forall2 (λ t t', same_but_intensity t t' ∧
                   (suppressed distance_to_horizon horizon_angle cfg t = false →
                    intensity t = intensity t'))
    (trials Ag) (trials Ag').

#[global] Instance close_dec : RelDecision close.
Proof. intros a b. unfold close. apply _. Defined.
#[global] Instance numerically_close_dec : RelDecision numerically_close.
Proof. intros xs ys. unfold numerically_close. apply _. Defined.
#[global] Instance well_shaped_dec A : Decision (well_shaped A).
Proof. unfold well_shaped. apply _. Defined.
#[global] Instance same_azimuths_dec : RelDecision same_azimuths.
Proof. intros A B. unfold same_azimuths. apply _. Defined.

(** ** Concrete runs

    Small inputs on which the definitions are evaluated.  Their numbers
    are dyadic or small decimals, so that the float64 arithmetic of the
    source is exact on them wherever a value is compared. *)

(** A configuration: one elevation, the default altitude, two trials. *)
Definition cfg0 : Config :=
  {| Enu := qc 1000000000000000000 1; elev := [0];
     altitude := default_altitude; prototype := 2018; maxview := qc 1 16;
     icethickness := 0; N := NInt 2; antennas := 4;
     minfreq := qc 30 1; maxfreq := qc 80 1; trigger_SNR := qc 5 1;
     azimuths := [0%Z] |}.

(** Two stored results on a two-point grid, produced under the arguments
    of [cfg0]; the first grid point of [runB] is off by [1e-9]. *)
Definition runA : EffectiveArea :=
  {| N0 := [100; 100]%Z;
     elevation := [qc (-5) 1; qc (-10) 1];
     effective_area := [[qc 1 2]; [qc 1 4]];
     geometric := [1; qc 2 1];
     pexit := [qc 1 2; qc 1 4];
     pdecay := [qc 1 2; qc 1 8];
     ptrigger := [1; 0];
     args := make_args cfg0 (VArr [1]) |}.
Definition runB : EffectiveArea :=
  {| N0 := [300; 300]%Z;
     elevation := [qc (-4999999999) 1000000000; qc (-10) 1];
     effective_area := [[qc 1 4]; [qc 3 4]];
     geometric := [qc 3 1; qc 4 1];
     pexit := [qc 1 4; qc 1 2];
     pdecay := [1; qc 3 8];
     ptrigger := [0; 1];
     args := make_args cfg0 (VArr [1]) |}.

(** The two combinations of [runA] and [runB]. *)
Definition runAB : EffectiveArea :=
  {| N0 := [400; 400]%Z;
     elevation := [qc (-5) 1; qc (-10) 1];
     effective_area := [[qc 3 8]; [qc 1 2]];
     geometric := [qc 2 1; qc 3 1];
     pexit := [qc 3 8; qc 3 8];
     pdecay := [qc 3 4; qc 1 4];
     ptrigger := [qc 1 2; qc 1 2];
     args := make_args cfg0 (VArr [1]) |}.
Definition runBA : EffectiveArea :=
  {| N0 := [400; 400]%Z;
     elevation := [qc (-4999999999) 1000000000; qc (-10) 1];
     effective_area := [[qc 3 8]; [qc 1 2]];
     geometric := [qc 2 1; qc 3 1];
     pexit := [qc 3 8; qc 3 8];
     pdecay := [qc 3 4; qc 1 4];
     ptrigger := [qc 1 2; qc 1 2];
     args := make_args cfg0 (VArr [1]) |}.

(** [runA] on a grid whose second point is moved by [1.00011e-4]: the
    move is within the tolerance relative to the moved point and outside
    the tolerance relative to the original one. *)
Definition runA_moved : EffectiveArea :=
  {| N0 := N0 runA;
     elevation := [qc (-5) 1; qc (-10000100011) 1000000000];
     effective_area := effective_area runA;
     geometric := geometric runA;
     pexit := pexit runA;
     pdecay := pdecay runA;
     ptrigger := ptrigger runA;
     args := args runA |}.

(** A result whose [N0] is longer than its grid, under other arguments
    than [runA] ([calculate] returns such a result when [N] is passed as an
    array longer than [elev]). *)
Definition run_long_N0 : EffectiveArea :=
  {| N0 := [100; 100; 100]%Z;
     elevation := elevation runA;
     effective_area := effective_area runA;
     geometric := geometric runA;
     pexit := pexit runA;
     pdecay := pdecay runA;
     ptrigger := ptrigger runA;
     args := make_args cfg0 (VArr [qc 2 1]) |}.

(** Collaborators for the concrete runs: the horizon of the default
    altitude (about 222 km away, 0.035 rad below the horizontal), a unit
    gain per azimuth, and degrees per radian to seven digits. *)
Definition horizon_distance0 (h : Qc) (ice : Z) : Qc := qc 222 1.
Definition horizon_angle0 (h : Qc) (ice : Z) : Qc := qc (-35) 1000.
Definition directivity0 (prototype : Z) (az : list Z) : Value :=
  VArr ((λ _, 1) <$> az).
Definition degrees0 (x : Qc) : Qc := x * qc 5729578 100000.
(** A value for the stand-in of NaN; no run below stores it. *)
Definition nan0 : Qc := qc (-1) 1.

(** A trial in view of the payload (10 km away, just below the
    horizontal) whose intensity passes the threshold. *)
Definition trial_seen (pe pd : Qc) : Trial :=
  {| dot := 1; Pexit := Some pe; Pdecay := Some pd;
     intensity := Some (qc 1 1000000); D := qc 10 1; theta := qc (-1) 64 |}.

(** A trial at which no tau exited: everything derived from the exit is
    masked. *)
Definition trial_no_exit : Trial :=
  {| dot := 1; Pexit := None; Pdecay := None; intensity := None;
     D := qc 10 1; theta := qc (-1) 64 |}.

(** A trial above the horizontal, and one behind and below the horizon;
    both with an intensity that passes the threshold. *)
Definition trial_above : Trial :=
  {| dot := 1; Pexit := Some 1; Pdecay := Some 1;
     intensity := Some (qc 1 1000000); D := qc 10 1; theta := qc 1 64 |}.
Definition trial_hidden : Trial :=
  {| dot := 1; Pexit := Some 1; Pdecay := Some 1;
     intensity := Some (qc 1 1000000); D := qc 300 1; theta := qc (-1) 16 |}.
(** Beyond the horizon distance but not below the horizon angle. *)
Definition trial_far : Trial :=
  {| dot := 1; Pexit := Some 1; Pdecay := Some 1;
     intensity := Some (qc 1 1000000); D := qc 300 1; theta := qc (-1) 64 |}.

(** A batch in which exit and decay are correlated: one trial with both
    probabilities one half, one with both zero. *)
Definition batch_correlated : Batch :=
  {| area := 1; trials := [trial_seen (qc 1 2) (qc 1 2); trial_seen 0 0] |}.
Definition run_correlated : EffectiveArea :=
  {| N0 := [2%Z]; elevation := [0];
     effective_area := [[qc 1 8]];
     geometric := [1]; pexit := [qc 1 4]; pdecay := [qc 1 4]; ptrigger := [1];
     args := make_args cfg0 (VArr [1]) |}.

(** A batch of two trials, at one of which no tau exited. *)
Definition batch_no_exit : Batch :=
  {| area := 1; trials := [trial_no_exit; trial_seen (qc 1 2) (qc 1 2)] |}.
Definition run_no_exit : EffectiveArea :=
  {| N0 := [2%Z]; elevation := [0];
     effective_area := [[qc 1 8]];
     geometric := [1]; pexit := [qc 1 2]; pdecay := [qc 1 2]; ptrigger := [1];
     args := make_args cfg0 (VArr [1]) |}.

(** Three elevations, of which only the second yields trials. *)
Definition cfg3 : Config :=
  {| Enu := qc 1000000000000000000 1; elev := [0; qc (-1) 8; qc (-1) 4];
     altitude := default_altitude; prototype := 2018; maxview := qc 1 16;
     icethickness := 0; N := NInt 2; antennas := 4;
     minfreq := qc 30 1; maxfreq := qc 80 1; trigger_SNR := qc 5 1;
     azimuths := [0%Z; 90%Z] |}.
Definition batch_empty : Batch := {| area := 1; trials := [] |}.
Definition batches_middle (i : nat) : Batch :=
  if decide (i = 1%nat) then batch_correlated else batch_empty.

(** A batch with suppressed trials, and the same batch with other raw
    trigger outcomes at the suppressed trials. *)
Definition batch_cut : Batch :=
  {| area := 1;
     trials := [trial_above; trial_hidden; trial_far; trial_seen 1 1] |}.

(** The configuration of [cfg0] with four trials thrown. *)
Definition cfg_cut : Config :=
  {| Enu := Enu cfg0; elev := elev cfg0; altitude := altitude cfg0;
     prototype := prototype cfg0; maxview := maxview cfg0;
     icethickness := icethickness cfg0; N := NInt 4; antennas := antennas cfg0;
     minfreq := minfreq cfg0; maxfreq := maxfreq cfg0;
     trigger_SNR := trigger_SNR cfg0; azimuths := azimuths cfg0 |}.

(** Results stored on disk.  [runA] and [runB] carry the default
    altitude; [highA] and [highB] are the same arrays from runs at 37 km. *)
Definition cfg_high : Config :=
  {| Enu := Enu cfg0; elev := elev cfg0; altitude := qc 37 1;
     prototype := prototype cfg0; maxview := maxview cfg0;
     icethickness := icethickness cfg0; N := N cfg0; antennas := antennas cfg0;
     minfreq := minfreq cfg0; maxfreq := maxfreq cfg0;
     trigger_SNR := trigger_SNR cfg0; azimuths := azimuths cfg0 |}.
Definition at_high (A : EffectiveArea) : EffectiveArea :=
  {| N0 := N0 A; elevation := elevation A; effective_area := effective_area A;
     geometric := geometric A; pexit := pexit A; pdecay := pdecay A;
     ptrigger := ptrigger A; args := make_args cfg_high (VArr [1]) |}.
Definition highA : EffectiveArea := at_high runA.
Definition highB : EffectiveArea := at_high runB.
Definition disk0 : gmap string EffectiveArea :=
  list_to_map [ ("a.pkl"%string, runA); ("b.pkl"%string, runB);
                ("c.pkl"%string, highA); ("d.pkl"%string, highB) ].

(** A configuration with another azimuth grid, and with another trigger
    threshold. *)
Definition with_azimuths (cfg : Config) (az : list Z) : Config :=
  {| Enu := Enu cfg; elev := elev cfg; altitude := altitude cfg;
     prototype := prototype cfg; maxview := maxview cfg;
     icethickness := icethickness cfg; N := N cfg; antennas := antennas cfg;
     minfreq := minfreq cfg; maxfreq := maxfreq cfg;
     trigger_SNR := trigger_SNR cfg; azimuths := az |}.
Definition with_trigger_SNR (cfg : Config) (snr : Qc) : Config :=
  {| Enu := Enu cfg; elev := elev cfg; altitude := altitude cfg;
     prototype := prototype cfg; maxview := maxview cfg;
     icethickness := icethickness cfg; N := N cfg; antennas := antennas cfg;
     minfreq := minfreq cfg; maxfreq := maxfreq cfg;
     trigger_SNR := snr; azimuths := azimuths cfg |}.

(** A configuration whose [N] is an array shorter than its grid. *)
Definition cfg_short_N : Config :=
  {| Enu := Enu cfg3; elev := elev cfg3; altitude := altitude cfg3;
     prototype := prototype cfg3; maxview := maxview cfg3;
     icethickness := icethickness cfg3; N := NArray [2; 2]%Z;
     antennas := antennas cfg3; minfreq := minfreq cfg3;
     maxfreq := maxfreq cfg3; trigger_SNR := trigger_SNR cfg3;
     azimuths := azimuths cfg3 |}.

(** The runs for which [trial_counts] is the array of the source: those
    whose [N] is an array, or a scalar that NumPy can convert to [int64]. *)
Definition N_fits_int64 (cfg : Config) : Prop :=
  match N cfg with
  | NInt n => int64_range n
  | NArray _ => True
  end.

(** Two values whose comparison Python decides by their contents, also
    when they are two objects: two numbers, or two arrays of one entry
    each.  Two dictionaries are decided by content when the values they
    hold under a common key are. *)
Definition decided_by_content (v w : Value) : Prop :=
  match v, w with
  | VNum _, VNum _ => True
  | VArr a, VArr b => length a = 1%nat ∧ length b = 1%nat
  | _, _ => False
  end.

Definition args_decided_by_content (a b : gmap string Value) : Prop :=
  ∀ k v w, a !! k = Some v → b !! k = Some w → decided_by_content v w.

(** The values on which Python's [bool(x == y)] is defined whatever the
    objects compared: a number, and an array of exactly one entry.  On
    longer arrays NumPy refuses to decide, and the outcome of comparing two
    dictionaries that hold them depends on whether the arrays are one
    object. *)
Definition one_valued (v : Value) : Prop :=
  match v with
  | VNum _ => True
  | VArr a => length a = 1%nat
  end.

(** A result under other args. *)
Definition with_args (R : EffectiveArea) (a : gmap string Value) : EffectiveArea :=
  {| N0 := N0 R; elevation := elevation R; effective_area := effective_area R;
     geometric := geometric R; pexit := pexit R; pdecay := pdecay R;
     ptrigger := ptrigger R; args := a |}.

(** * Properties *)

(** ** Arrays *)

Section arrays.
Context {A B C : Type}.
Implicit Types (f : A → B → Result C) (g : A → B → C).

Lemma collect_zip_with_Ok f g xs ys :
  Forall2 (λ x y, f x y = Ok (g x y)) xs ys →
  collect (zip_with f xs ys) = Ok (zip_with g xs ys).
Proof.
  induction 1 as [|x y xs ys Hxy _ IH]; simpl; [done|].
  by rewrite Hxy, IH.
Qed.

Lemma collect_raises (e0 : Error) (rs : list (Result C)) e :
  Forall (λ r, ∀ e', r = Raise e' → e' = e0) rs →
  collect rs = Raise e → e = e0.
Proof.
  induction 1 as [|r rs Hr _ IH]; simpl; [done|].
  destruct r as [c|e']; simpl.
  - destruct (collect rs); simpl; [done|]. intros [= <-]. by apply IH.
  - intros [= <-]. by apply Hr.
Qed.

Lemma np_broadcast_aligned f g xs ys :
  Forall2 (λ x y, f x y = Ok (g x y)) xs ys →
  np_broadcast f xs ys = Ok (zip_with g xs ys).
Proof.
  intros H. unfold np_broadcast.
  rewrite decide_True by eauto using Forall2_length.
  by apply collect_zip_with_Ok.
Qed.

Lemma np_broadcast_raises f xs ys e :
  (∀ x y e', f x y = Raise e' → e' = BroadcastError) →
  np_broadcast f xs ys = Raise e → e = BroadcastError.
Proof.
  intros Hf. unfold np_broadcast.
  assert (∀ rs : list (Result C),
    Forall (λ r, ∃ x y, r = f x y) rs →
    collect rs = Raise e → e = BroadcastError) as Hcollect.
  { intros rs Hrs. apply collect_raises.
    eapply Forall_impl; [exact Hrs|].
    intros r (x & y & ->) e'. apply Hf. }
  case_decide.
  - apply Hcollect. clear. revert ys.
    induction xs as [|x xs IH]; intros [|y ys]; simpl; eauto.
  - destruct xs as [|x [|x' xs]], ys as [|y [|y' ys]];
      try (by intros [= <-]); apply Hcollect;
      repeat first [apply Forall_nil_2 | apply Forall_cons_2
                   | apply Forall_fmap, Forall_true; simpl ]; eauto.
Qed.
End arrays.

Lemma np_broadcast_comm {A C} (f : A → A → Result C) xs ys :
  (∀ x y, f x y = f y x) → np_broadcast f xs ys = np_broadcast f ys xs.
Proof.
  intros Hf. unfold np_broadcast.
  assert (∀ xs ys, zip_with f xs ys = zip_with f ys xs) as Hzip.
  { clear xs ys. induction xs as [|x xs IH]; intros [|y ys]; simpl; [done..|].
    by rewrite Hf, IH. }
  assert (∀ x (l : list A), f x <$> l = (λ y, f y x) <$> l) as Hmap.
  { intros x l. by apply list_fmap_ext. }
  destruct (decide (length xs = length ys)) as [Hlen|Hlen].
  - rewrite decide_True by done. by rewrite Hzip.
  - rewrite decide_False by done.
    destruct xs as [|x [|x' xs]], ys as [|y [|y' ys]];
      cbn beta iota; try done; by rewrite Hmap.
Qed.

(** ** Combination *)

Lemma int64_wrap_id z : int64_range z → int64_wrap z = z.
Proof. unfold int64_range, int64_wrap. intros ?. rewrite Z.mod_small; lia. Qed.

Lemma np_add_int_aligned xs ys :
  length xs = length ys → np_add_int xs ys = Ok (zip_with int64_add xs ys).
Proof. intros H. apply np_broadcast_aligned, Forall2_true; auto. Qed.

Lemma np_add_aligned xs ys :
  length xs = length ys → np_add xs ys = Ok (zip_with Qcplus xs ys).
Proof. intros H. apply np_broadcast_aligned, Forall2_true; auto. Qed.

Lemma zip_with_mean2 (xs ys : list Qc) :
  Qcmult (qc 1 2) <$> zip_with Qcplus xs ys = zip_with mean2 xs ys.
Proof.
  revert ys. induction xs as [|x xs IH]; intros [|y ys]; simpl; [done..|].
  f_equal. apply IH.
Qed.

Lemma average_aligned xs ys :
  length xs = length ys → average xs ys = Ok (zip_with mean2 xs ys).
Proof.
  intros H. unfold average. rewrite np_add_aligned by done. simpl.
  by rewrite zip_with_mean2.
Qed.

Lemma average2_aligned (X Y : list (list Qc)) :
  Forall2 (λ r s, length r = length s) X Y →
  average2 X Y = Ok (zip_with (zip_with mean2) X Y).
Proof.
  intros H. unfold average2, np_add2.
  rewrite (np_broadcast_aligned _ (zip_with Qcplus)); simpl.
  - f_equal. induction H as [|r s X Y _ _ IH]; csimpl; [done|].
    by rewrite zip_with_mean2, IH.
  - eapply Forall2_impl; [exact H|]. intros r s. apply np_add_aligned.
Qed.

Lemma average2_raises X Y e : average2 X Y = Raise e → e = BroadcastError.
Proof.
  unfold average2, np_add2.
  destruct (np_broadcast np_add X Y) as [Z|e'] eqn:HZ; simpl; [done|].
  intros [= <-]. eapply np_broadcast_raises; [|exact HZ].
  intros x y e1. apply np_broadcast_raises. by intros.
Qed.

Lemma isclose_all_spec xs ys :
  length xs = length ys →
  isclose_all xs ys = true ↔ numerically_close xs ys.
Proof.
  unfold isclose_all, numerically_close.
  revert ys. induction xs as [|x xs IH]; intros [|y ys] Hlen; simplify_eq/=.
  - split; [constructor|done].
  - rewrite andb_true_iff, IH by done. unfold isclose.
    rewrite bool_decide_eq_true. split.
    + intros [??]. by constructor.
    + by inversion 1.
Qed.

Lemma np_add_int_comm xs ys : np_add_int xs ys = np_add_int ys xs.
Proof.
  apply np_broadcast_comm. intros x y. unfold int64_add. by rewrite Z.add_comm.
Qed.

Lemma np_add_comm xs ys : np_add xs ys = np_add ys xs.
Proof. apply np_broadcast_comm. intros x y. by rewrite Qcplus_comm. Qed.

Lemma average_comm xs ys : average xs ys = average ys xs.
Proof. unfold average. by rewrite np_add_comm. Qed.

Lemma average2_comm X Y : average2 X Y = average2 Y X.
Proof.
  unfold average2, np_add2.
  by rewrite (np_broadcast_comm np_add X Y) by apply np_add_comm.
Qed.

(** What a successful [__add__] has checked and computed. *)
Lemma add_Ok_inv A B R :
  __add__ A B = Ok R →
  length (elevation A) = length (elevation B) ∧
  isclose_all (elevation A) (elevation B) = true ∧
  args A = args B ∧
  np_add_int (N0 A) (N0 B) = Ok (N0 R) ∧
  average2 (effective_area A) (effective_area B) = Ok (effective_area R) ∧
  average (geometric A) (geometric B) = Ok (geometric R) ∧
  average (pexit A) (pexit B) = Ok (pexit R) ∧
  average (pdecay A) (pdecay B) = Ok (pdecay R) ∧
  average (ptrigger A) (ptrigger B) = Ok (ptrigger R) ∧
  elevation R = elevation A ∧
  args R = args A.
Proof.
  unfold __add__.
  case_bool_decide as Hlen; simpl; [|done].
  destruct (isclose_all _ _) eqn:Hclose; simpl; [|done].
  destruct (np_add_int _ _) as [n|] eqn:HN; simpl; [|done].
  case_bool_decide as Hargs; [done|].
  destruct (average2 _ _) as [ea|]; simpl; [|done].
  destruct (average (geometric A) _) as [g|]; simpl; [|done].
  destruct (average (pexit A) _) as [pe|]; simpl; [|done].
  destruct (average (pdecay A) _) as [pd|]; simpl; [|done].
  destruct (average (ptrigger A) _) as [pt|]; simpl; [|done].
  intros [= <-]; simpl. repeat split; try done.
Qed.

(** A combination of well-shaped results on the same grids succeeds, and
    this is its value. *)
Lemma add_aligned A B :
  well_shaped A → well_shaped B → same_azimuths A B →
  numerically_close (elevation A) (elevation B) →
  args A = args B →
  __add__ A B =
    Ok (mkEffectiveArea
          (zip_with int64_add (N0 A) (N0 B))
          (elevation A)
          (zip_with (zip_with mean2) (effective_area A) (effective_area B))
          (zip_with mean2 (geometric A) (geometric B))
          (zip_with mean2 (pexit A) (pexit B))
          (zip_with mean2 (pdecay A) (pdecay B))
          (zip_with mean2 (ptrigger A) (ptrigger B))
          (args A)).
Proof.
  intros (HA1 & HA2 & HA3 & HA4 & HA5 & HA6) (HB1 & HB2 & HB3 & HB4 & HB5 & HB6)
    Haz Hclose Hargs.
  pose proof (Forall2_length _ _ _ Hclose) as Hlen.
  unfold __add__.
  rewrite bool_decide_eq_true_2 by done; simpl.
  rewrite (proj2 (isclose_all_spec _ _ Hlen) Hclose); simpl.
  rewrite np_add_int_aligned by congruence; simpl.
  rewrite bool_decide_eq_false_2 by auto; simpl.
  rewrite average2_aligned by done; simpl.
  by rewrite !average_aligned by congruence.
Qed.

Lemma collect_length {A} (rs : list (Result A)) xs :
  collect rs = Ok xs → length xs = length rs.
Proof.
  revert xs. induction rs as [|r rs IH]; intros xs; simpl.
  - by intros [= <-].
  - destruct r as [x|]; simpl; [|done].
    destruct (collect rs) as [xs'|]; simpl; [|done].
    intros [= <-]. simpl. by rewrite (IH xs').
Qed.

Lemma np_broadcast_length {A B C} (f : A → B → Result C) xs ys zs :
  length xs = length ys → np_broadcast f xs ys = Ok zs →
  length zs = length xs.
Proof.
  intros Hlen. unfold np_broadcast. rewrite decide_True by done.
  intros ->%collect_length. by rewrite length_zip_with_l_eq.
Qed.

Lemma average2_length X Y Z :
  length X = length Y → average2 X Y = Ok Z → length Z = length X.
Proof.
  intros Hlen. unfold average2, np_add2.
  destruct (np_broadcast np_add X Y) as [S|] eqn:HS; [|done].
  intros [= <-]. rewrite length_fmap. by apply np_broadcast_length in HS.
Qed.

(** The shape invariant is preserved by a combination. *)
Lemma add_well_shaped A B R :
  well_shaped A → well_shaped B → __add__ A B = Ok R → well_shaped R.
Proof.
  intros (HA1 & HA2 & HA3 & HA4 & HA5 & HA6) (HB1 & HB2 & HB3 & HB4 & HB5 & HB6).
  intros (Hlen & _ & _ & HN & Hea & Hg & Hpe & Hpd & Hpt & Hel & _)%add_Ok_inv.
  rewrite np_add_int_aligned in HN by congruence.
  rewrite average_aligned in Hg, Hpe, Hpd, Hpt by congruence.
  apply average2_length in Hea; [|congruence].
  simplify_eq. unfold well_shaped. rewrite Hel.
  rewrite <-HN, <-Hg, <-Hpe, <-Hpd, <-Hpt, !length_zip_with_l_eq by congruence.
  repeat split; congruence.
Qed.

(** Grids of the same height and width are on the same azimuths. *)
Lemma rows_of_width_same_azimuths A B m :
  length (effective_area A) = length (effective_area B) →
  rows_of_width m (effective_area A) → rows_of_width m (effective_area B) →
  same_azimuths A B.
Proof.
  unfold same_azimuths, rows_of_width.
  generalize (effective_area A) (effective_area B). intros X Y Hlen HX.
  revert Y Hlen. induction HX as [|r X Hr _ IH]; intros [|s Y] Hlen HY;
    simplify_eq/=; [constructor|].
  apply Forall_cons in HY as [Hs HY]. constructor; [congruence|].
  by apply IH.
Qed.

(** Closed goals over decidable propositions are settled by evaluation. *)
Ltac by_evaluation := apply (bool_decide_unpack _); vm_compute; exact I.

(** C3.  Whatever [__add__] returns for two results (well-shaped, on the
    same azimuths) is their combination as the claim has it.  The operands
    were combinable: their elevation grids are numerically close, so of
    one length, and their args are equal.  [N0] is the elementwise [int64]
    sum of the operands' [N0], which is the integer sum wherever that sum
    fits an [int64]; and each of [effective_area], [geometric], [pexit],
    [pdecay] and [ptrigger] is the elementwise unweighted mean
    [0.5 * (a + b)], in which no trial count occurs. *)
Theorem add_sums_N0_and_averages (A B R : EffectiveArea) :
  well_shaped A → well_shaped B → same_azimuths A B →
  __add__ A B = Ok R →
  numerically_close (elevation A) (elevation B) ∧
  args A = args B ∧
  N0 R = zip_with int64_add (N0 A) (N0 B) ∧
  (∀ i a b, N0 A !! i = Some a → N0 B !! i = Some b →
     int64_range (a + b) → N0 R !! i = Some (a + b)%Z) ∧
  effective_area R =
    zip_with (zip_with (λ a b, qc 1 2 * (a + b)))
      (effective_area A) (effective_area B) ∧
  geometric R = zip_with (λ a b, qc 1 2 * (a + b)) (geometric A) (geometric B) ∧
  pexit R = zip_with (λ a b, qc 1 2 * (a + b)) (pexit A) (pexit B) ∧
  pdecay R = zip_with (λ a b, qc 1 2 * (a + b)) (pdecay A) (pdecay B) ∧
  ptrigger R = zip_with (λ a b, qc 1 2 * (a + b)) (ptrigger A) (ptrigger B).
Proof.
  intros HA HB Haz HR.
  pose proof HR as (Hlen & Hiso & Hargs & _)%add_Ok_inv.
  assert (numerically_close (elevation A) (elevation B)) as Hclose.
  { by apply isclose_all_spec. }
  rewrite (add_aligned A B HA HB Haz Hclose Hargs) in HR.
  injection HR as <-. simpl.
  repeat split; try done.
  intros i a b Ha Hb Hrange.
  rewrite lookup_zip_with, Ha, Hb. simpl.
  unfold int64_add. by rewrite int64_wrap_id.
Qed.

Lemma add_sums_N0_and_averages_witness :
  well_shaped runA ∧ well_shaped runB ∧ same_azimuths runA runB ∧
  __add__ runA runB = Ok runAB ∧
  numerically_close (elevation runA) (elevation runB) ∧
  args runA = args runB ∧
  N0 runAB = zip_with int64_add (N0 runA) (N0 runB) ∧
  (∀ i a b, N0 runA !! i = Some a → N0 runB !! i = Some b →
     int64_range (a + b) → N0 runAB !! i = Some (a + b)%Z) ∧
  effective_area runAB =
    zip_with (zip_with (λ a b, qc 1 2 * (a + b)))
      (effective_area runA) (effective_area runB) ∧
  geometric runAB =
    zip_with (λ a b, qc 1 2 * (a + b)) (geometric runA) (geometric runB) ∧
  pexit runAB = zip_with (λ a b, qc 1 2 * (a + b)) (pexit runA) (pexit runB) ∧
  pdecay runAB =
    zip_with (λ a b, qc 1 2 * (a + b)) (pdecay runA) (pdecay runB) ∧
  ptrigger runAB =
    zip_with (λ a b, qc 1 2 * (a + b)) (ptrigger runA) (ptrigger runB).
Proof.
  assert (well_shaped runA) as H1 by by_evaluation.
  assert (well_shaped runB) as H2 by by_evaluation.
  assert (same_azimuths runA runB) as H3 by by_evaluation.
  assert (__add__ runA runB = Ok runAB) as H4 by by_evaluation.
  do 4 (split; [assumption|]).
  exact (add_sums_N0_and_averages runA runB runAB H1 H2 H3 H4).
Defined.

(** The args of two runs are decided by content when their gains are:
    every other entry is a number. *)
Lemma make_args_decided (cfg cfg' : Config) (g g' : Value) :
  decided_by_content g g' →
  args_decided_by_content (make_args cfg g) (make_args cfg' g').
Proof.
  intros Hg k v w Hv%elem_of_list_to_map_2 Hw%elem_of_list_to_map_2.
  rewrite !elem_of_cons, elem_of_nil in Hv, Hw.
  repeat destruct Hv as [Hv|Hv]; try done;
    repeat destruct Hw as [Hw|Hw]; try done; by simplify_eq.
Qed.

(** Within the conditions under which [__add__] is the source's on any two
    objects, combinable results are combined: the combination returns. *)
Lemma add_returns (A B : EffectiveArea) :
  well_shaped A → well_shaped B → same_azimuths A B →
  numerically_close (elevation A) (elevation B) →
  args A = args B → args_decided_by_content (args A) (args B) →
  ∃ R, __add__ A B = Ok R.
Proof. intros HA HB Haz Hclose Hargs _. eexists. by apply add_aligned. Qed.

(** C5, as stated, fails on the elevation grid: [__add__] keeps the grid of
    its left operand, and close grids need not be equal. *)
Lemma add_not_commutative_on_elevation :
  __add__ runA runB = Ok runAB ∧ __add__ runB runA = Ok runBA ∧
  elevation runAB ≠ elevation runBA.
Proof. by_evaluation. Qed.

(** Closeness is relative to the right operand, so one order of a
    combination can succeed where the other raises. *)
Example add_one_order_only :
  (∃ R, __add__ runA runA_moved = Ok R) ∧
  __add__ runA_moved runA = Raise ElevationMismatch.
Proof.
  split; [|by_evaluation].
  destruct (__add__ runA runA_moved) as [R|] eqn:HR; [by exists R|].
  by vm_compute in HR.
Qed.

(** C5, amended.  Whenever both orders of a combination succeed, the two
    results agree exactly on [N0], [effective_area], [geometric], [pexit],
    [pdecay], [ptrigger] and [args]; the elevation grid is the one of the
    left operand in each order. *)
Theorem add_commutative (A B R R' : EffectiveArea) :
  __add__ A B = Ok R → __add__ B A = Ok R' →
  N0 R = N0 R' ∧
  effective_area R = effective_area R' ∧
  geometric R = geometric R' ∧
  pexit R = pexit R' ∧
  pdecay R = pdecay R' ∧
  ptrigger R = ptrigger R' ∧
  args R = args R' ∧
  elevation R = elevation A ∧ elevation R' = elevation B.
Proof.
  intros (_ & _ & Hargs & HN & Hea & Hg & Hpe & Hpd & Hpt & Hel & Ha)%add_Ok_inv
         (_ & _ & _ & HN' & Hea' & Hg' & Hpe' & Hpd' & Hpt' & Hel' & Ha')%add_Ok_inv.
  rewrite np_add_int_comm in HN'. rewrite average2_comm in Hea'.
  rewrite average_comm in Hg', Hpe', Hpd', Hpt'.
  repeat split; congruence.
Qed.

Lemma add_commutative_witness :
  __add__ runA runB = Ok runAB ∧ __add__ runB runA = Ok runBA ∧
  N0 runAB = N0 runBA ∧
  effective_area runAB = effective_area runBA ∧
  geometric runAB = geometric runBA ∧
  pexit runAB = pexit runBA ∧
  pdecay runAB = pdecay runBA ∧
  ptrigger runAB = ptrigger runBA ∧
  args runAB = args runBA ∧
  elevation runAB = elevation runA ∧ elevation runBA = elevation runB.
Proof.
  assert (__add__ runA runB = Ok runAB) as H1 by by_evaluation.
  assert (__add__ runB runA = Ok runBA) as H2 by by_evaluation.
  split; [exact H1|]. split; [exact H2|].
  exact (add_commutative runA runB runAB runBA H1 H2).
Defined.

(** What holds of C6.  On well-shaped results whose args are decided by
    content, [__add__] raises one of its two configuration-mismatch
    errors exactly when the elevation grids differ in length, or are not
    numerically close, or the args differ; and when the grids are close
    and the args equal (the azimuth grids being the same) it raises
    nothing.  On args that hold two distinct gain arrays of several
    entries the source raises NumPy's error at the comparison, which no
    statement here covers. *)
Lemma add_raises_iff_mismatch (A B : EffectiveArea) :
  well_shaped A → well_shaped B →
  args_decided_by_content (args A) (args B) →
  (configuration_mismatch (__add__ A B) ↔
     length (elevation A) ≠ length (elevation B) ∨
     ¬ numerically_close (elevation A) (elevation B) ∨
     args A ≠ args B) ∧
  (same_azimuths A B →
   numerically_close (elevation A) (elevation B) → args A = args B →
   ∃ R, __add__ A B = Ok R).
Proof.
  intros HA HB _. split; [|by eauto using add_aligned].
  destruct HA as (HA1 & _ & HA3 & HA4 & HA5 & HA6).
  destruct HB as (HB1 & _ & HB3 & HB4 & HB5 & HB6).
  unfold __add__, configuration_mismatch.
  destruct (decide (length (elevation A) = length (elevation B))) as [Hlen|Hlen].
  2:{ rewrite bool_decide_eq_false_2 by done; simpl. split; intros _; by left. }
  rewrite bool_decide_eq_true_2 by done; simpl.
  pose proof (isclose_all_spec _ _ Hlen) as Hclose.
  destruct (isclose_all _ _); simpl.
  2:{ split; [|by auto]. intros _. right; left. intros ?%Hclose. done. }
  rewrite np_add_int_aligned by congruence; simpl.
  destruct (decide (args A = args B)) as [Hargs|Hargs].
  2:{ rewrite bool_decide_eq_true_2 by done.
      split; intros _; [by do 2 right|by right]. }
  rewrite bool_decide_eq_false_2 by auto.
  rewrite !average_aligned by congruence.
  destruct (average2 _ _) as [ea|e] eqn:Hea; simpl.
  - split; [by intros [?|?]|]. intros [?|[Hn|?]]; [done| |done].
    destruct Hn. by apply Hclose.
  - apply average2_raises in Hea as ->.
    split; [by intros [?|?]|]. intros [?|[Hn|?]]; [done| |done].
    destruct Hn. by apply Hclose.
Qed.

(** Both halves at work: [runA] and [highB] differ in their args and
    raise; [runA] and [runB] are combinable and raise nothing. *)
Example add_raises_iff_mismatch_at_runs :
  (args runA ≠ args highB ∧ configuration_mismatch (__add__ runA highB)) ∧
  (args runA = args runB ∧ ∃ R, __add__ runA runB = Ok R).
Proof.
  assert (well_shaped runA) as HA by by_evaluation.
  assert (well_shaped runB) as HB by by_evaluation.
  assert (well_shaped highB) as HB' by by_evaluation.
  assert (args runA ≠ args highB) as Hne by by_evaluation.
  assert (args_decided_by_content (args runA) (args highB)) as Hd.
  { apply make_args_decided. by split. }
  split.
  - split; [exact Hne|].
    apply (proj1 (add_raises_iff_mismatch runA highB HA HB' Hd)). auto.
  - split; [reflexivity|]. by exists runAB; by_evaluation.
Qed.

(** The errors of [__add__], evaluated: on grids of different lengths, on
    different arguments, and, outside the shape invariant, the error of
    NumPy that comes before the comparison of the arguments. *)
Example add_raises_on_lengths :
  __add__ runA run_correlated = Raise ElevationMismatch.
Proof. by_evaluation. Qed.

Example add_raises_on_args : __add__ runA highB = Raise ArgsMismatch.
Proof. by_evaluation. Qed.

Example add_raises_on_shapes :
  ¬ well_shaped run_long_N0 ∧ args runA ≠ args run_long_N0 ∧
  __add__ runA run_long_N0 = Raise BroadcastError.
Proof. by_evaluation. Qed.

(** ** Sums and means of masked arrays *)

Lemma compressed_fmap {T A} (f : T → option A) (ts : list T) :
  compressed (f <$> ts) = omap f ts.
Proof.
  unfold compressed. induction ts as [|t ts IH]; csimpl; [done|].
  rewrite IH. by destruct (f t).
Qed.

Lemma omap_filter_is_Some {T A B} (f : T → option A) (g : T → option B)
    (ts : list T) :
  (∀ t, g t = None → f t = None) →
  omap f (filter (λ t, is_Some (g t)) ts) = omap f ts.
Proof.
  intros Hfg. induction ts as [|t ts IH]; [done|].
  rewrite filter_cons. destruct (decide (is_Some (g t))) as [Hg|Hg]; csimpl.
  - by rewrite IH.
  - rewrite IH. apply eq_None_not_Some in Hg. by rewrite (Hfg t Hg).
Qed.

Lemma stored_ma_sum (n : Qc) (xs : list (option Qc)) :
  stored_row ((λ s, s / n) <$> ma_sum xs) = np_sum (compressed xs) / n.
Proof.
  unfold ma_sum. destruct (compressed xs); simpl; [|done].
  unfold Qcdiv. by rewrite Qcmult_0_l.
Qed.

Lemma stored_ma_mean (nan : Qc) (xs : list (option Qc)) :
  stored_item nan (ma_mean xs) =
    match compressed xs with
    | [] => nan
    | ys => np_sum ys / float_of_int (Z.of_nat (length ys))
    end.
Proof. unfold ma_mean. by destruct (compressed xs). Qed.

Lemma np_sum_scale (a : Qc) (xs : list Qc) :
  np_sum (Qcmult a <$> xs) = a * np_sum xs.
Proof.
  induction xs as [|x xs IH]; csimpl.
  - by rewrite Qcmult_0_r.
  - by rewrite IH, Qcmult_plus_distr_r.
Qed.

Lemma Qcdiv_le_mono (x y n : Qc) : 0 < n → x ≤ y → x / n ≤ y / n.
Proof.
  intros Hn Hxy. unfold Qcdiv.
  apply Qcmult_le_mono_nonneg_r; [|done].
  by apply Qclt_le_weak, Qcinv_pos.
Qed.

Lemma float_of_int_pos (n : Z) : (0 < n)%Z → 0 < float_of_int n.
Proof. intros Hn. unfold float_of_int. by apply (Z2Qc_inj_lt 0 n). Qed.

(** A sum over the unmasked entries of one array is below that of
    another when each unmasked entry is matched by a larger one and the
    entries of the other array are not negative. *)
Lemma np_sum_omap_le {T} (f w : T → option Qc) (ts : list T) :
  Forall (λ t, (∀ c, f t = Some c → ∃ v, w t = Some v ∧ c ≤ v) ∧
               (∀ v, w t = Some v → 0 ≤ v)) ts →
  np_sum (omap f ts) ≤ np_sum (omap w ts).
Proof.
  induction 1 as [|t ts [Hf Hw] _ IH]; csimpl; [done|].
  destruct (f t) as [c|] eqn:Hc, (w t) as [v|] eqn:Hv; simpl.
  - destruct (Hf c eq_refl) as (v' & [= <-] & Hcv).
    by apply Qcplus_le_compat.
  - by destruct (Hf c eq_refl) as (v' & [=] & _).
  - rewrite <-(Qcplus_0_l (np_sum (omap f ts))).
    apply Qcplus_le_compat; [by apply Hw|done].
  - done.
Qed.

(** ** The loop of [calculate] *)

Section calculate_facts.
Context (batch : nat → Batch).
Context (distance_to_horizon horizon_angle : Qc → Z → Qc).
Context (directivity : Z → list Z → Value) (np_degrees : Qc → Qc).
Context (nan : Qc) (cfg : Config).

Local Abbreviation iteration' :=
  (iteration batch distance_to_horizon horizon_angle directivity nan cfg).
Local Abbreviation loop' :=
  (loop batch distance_to_horizon horizon_angle directivity nan cfg).
Local Abbreviation calculate' :=
  (calculate batch distance_to_horizon horizon_angle directivity np_degrees nan cfg).
Local Abbreviation trigger' := (trigger distance_to_horizon horizon_angle cfg).
Local Abbreviation suppressed' :=
  (suppressed distance_to_horizon horizon_angle cfg).
Local Abbreviation trial_trigger' :=
  (trial_trigger distance_to_horizon horizon_angle cfg).
Local Abbreviation trial_contribution' :=
  (trial_contribution distance_to_horizon horizon_angle cfg).
Local Abbreviation bin_ptrigger' :=
  (bin_ptrigger distance_to_horizon horizon_angle nan cfg).
Local Abbreviation bin_effective_area' :=
  (bin_effective_area distance_to_horizon horizon_angle cfg).
Local Abbreviation written' :=
  (written batch distance_to_horizon horizon_angle nan cfg).
Local Abbreviation gain :=
  (directivity (prototype cfg) ((λ a, a `mod` 360)%Z <$> azimuths cfg)).

(** The array operations of the two cuts, trial by trial. *)
Lemma trigger_fmap ts : trigger' ts = trial_trigger' <$> ts.
Proof.
  unfold trigger, assign_where, invisible, above, raw_trigger.
  induction ts as [|t ts IH]; csimpl; [done|].
  rewrite IH. f_equal.
  unfold trial_trigger, suppressed.
  by repeat case_bool_decide.
Qed.

Lemma contributions_fmap Ag :
  contributions Ag (trigger' (trials Ag)) = trial_contribution' Ag <$> trials Ag.
Proof.
  unfold contributions, weights. rewrite trigger_fmap.
  generalize (trials Ag). intros ts.
  induction ts as [|t ts IH]; csimpl; [done|]. by f_equal.
Qed.

Lemma bin_effective_area_sum n Ag :
  bin_effective_area' n Ag = np_sum (omap (trial_contribution' Ag) (trials Ag)) / n.
Proof.
  unfold bin_effective_area.
  by rewrite stored_ma_sum, contributions_fmap, compressed_fmap.
Qed.

(** One iteration. *)
Lemma iteration_empty i loc :
  is_Some (trial_counts cfg !! i) → trials (batch i) = [] →
  iteration' i loc = Ok loc.
Proof.
  intros [Ni HNi] Hempty. unfold iteration'.
  rewrite HNi; simpl. by rewrite bool_decide_eq_true_2.
Qed.

Lemma iteration_Ok i loc :
  is_Some (trial_counts cfg !! i) → ∃ loc', iteration' i loc = Ok loc'.
Proof.
  intros [Ni HNi]. unfold iteration'. rewrite HNi; simpl.
  case_bool_decide; eauto.
Qed.

Lemma iteration_inv i loc loc' :
  iteration' i loc = Ok loc' →
  ∃ Ni, trial_counts cfg !! i = Some Ni ∧
    ((trials (batch i) = [] ∧ loc' = loc) ∨
     (trials (batch i) ≠ [] ∧ loc_gain loc' = Some gain ∧
      (∀ j, i ≠ j → bin_values loc' j = bin_values loc j) ∧
      (∀ n, shaped n loc →
         shaped n loc' ∧ ((i < n)%nat → bin_values loc' i = written' Ni i)))).
Proof.
  unfold iteration.
  destruct (trial_counts cfg !! i) as [Ni|]; simpl; [|done].
  intros H. exists Ni. split; [done|].
  case_bool_decide as Hempty; simplify_eq; [by left|right].
  split; [done|]. split; [done|]. split.
  - intros j Hij. unfold bin_values; simpl.
    by rewrite !list_lookup_insert_ne by done.
  - intros n (H1 & H2 & H3 & H4 & H5). unfold shaped, bin_values, written'; simpl.
    rewrite !length_insert. split; [done|]. intros Hi.
    by rewrite !list_lookup_insert_eq by lia.
Qed.

(** The whole loop. *)
Lemma loop_Ok bins loc :
  Forall (λ i, is_Some (trial_counts cfg !! i)) bins →
  ∃ loc', loop' bins loc = Ok loc'.
Proof.
  intros Hbins. revert loc.
  induction Hbins as [|i bins Hi _ IH]; intros loc; simpl; [by eauto|].
  destruct (iteration_Ok i loc Hi) as [loc1 ->]. simpl. apply IH.
Qed.

Lemma loop_all_empty bins loc :
  Forall (λ i, is_Some (trial_counts cfg !! i) ∧ trials (batch i) = []) bins →
  loop' bins loc = Ok loc.
Proof.
  induction 1 as [|i bins [Hi Hempty] _ IH]; simpl; [done|].
  by rewrite iteration_empty.
Qed.

Lemma loop_gain bins loc loc' :
  loop' bins loc = Ok loc' →
  is_Some (loc_gain loc) ∨ Exists (λ i, trials (batch i) ≠ []) bins →
  is_Some (loc_gain loc').
Proof.
  revert loc. induction bins as [|i bins IH]; intros loc; simpl.
  - intros [= <-] [?|?%Exists_nil]; done.
  - destruct (iteration' i loc) as [loc1|] eqn:Hit; simpl; [|done].
    intros Hloop Hsome. apply (IH loc1 Hloop).
    apply iteration_inv in Hit as (Ni & _ & [[Hempty ->]|(Hne & Hg & _)]).
    + destruct Hsome as [?|[?|?]%Exists_cons]; auto. done.
    + left. by rewrite Hg.
Qed.

Lemma loop_values bins n loc loc' :
  NoDup bins → shaped n loc → loop' bins loc = Ok loc' →
  shaped n loc' ∧
  ∀ j, (j < n)%nat →
    (j ∉ bins ∨ trials (batch j) = [] →
       bin_values loc' j = bin_values loc j) ∧
    (j ∈ bins → trials (batch j) ≠ [] →
       ∃ Nj, trial_counts cfg !! j = Some Nj ∧
             bin_values loc' j = written' Nj j).
Proof.
  intros Hnodup. revert loc.
  induction Hnodup as [|i bins Hi _ IH]; intros loc Hshape; simpl.
  { intros [= <-]. split; [done|]. intros j _. split; [done|].
    by intros ?%not_elem_of_nil. }
  destruct (iteration' i loc) as [loc1|] eqn:Hit; simpl; [|done].
  intros Hloop.
  apply iteration_inv in Hit as (Ni & HNi & Hit).
  assert (shaped n loc1) as Hshape1.
  { destruct Hit as [[_ ->]|(_ & _ & _ & Hw)]; [done|]. by apply Hw. }
  destruct (IH loc1 Hshape1 Hloop) as [Hshape' Hvalues].
  split; [done|]. intros j Hj.
  destruct (Hvalues j Hj) as [Hkeep Hwrite]. split.
  - intros Hcase. rewrite Hkeep.
    + destruct Hit as [[_ ->]|(Hne & _ & Hother & _)]; [done|].
      apply Hother. intros ->.
      destruct Hcase as [Hnotin|Hempty]; [|done].
      apply Hnotin. by left.
    + destruct Hcase as [Hnotin|Hempty]; [left|by right].
      intros Hin. apply Hnotin. by right.
  - intros [->|Hin]%elem_of_cons Hne; [|by apply Hwrite].
    exists Ni. split; [done|]. rewrite Hkeep by by left.
    destruct Hit as [[Hempty _]|(_ & _ & _ & Hw)]; [done|].
    by apply (Hw n Hshape).
Qed.

Lemma initial_shaped : shaped (length (elev cfg)) (initial cfg).
Proof. unfold shaped, initial; simpl. by rewrite !length_replicate. Qed.

Lemma initial_values j :
  (j < length (elev cfg))%nat →
  bin_values (initial cfg) j =
    (Some 0, Some 0, Some 0, Some 0,
     Some (replicate (length (azimuths cfg)) 0)).
Proof.
  intros Hj. unfold bin_values, initial; simpl.
  by rewrite !lookup_replicate_2 by done.
Qed.

(** What a successful [calculate] has done. *)
Lemma calculate_Ok_inv R :
  calculate' = Ok R →
  ∃ loc g, loop' (seq 0 (length (elev cfg))) (initial cfg) = Ok loc ∧
    loc_gain loc = Some g ∧
    R = mkEffectiveArea (trial_counts cfg) (np_degrees <$> elev cfg)
          (loc_effective_area loc) (loc_geometric loc) (loc_pexit loc)
          (loc_pdecay loc) (loc_ptrigger loc) (make_args cfg g).
Proof.
  unfold calculate.
  destruct (loop' _ _) as [loc|]; simpl; [|done].
  destruct (loc_gain loc) as [g|] eqn:Hg; simpl; [|done].
  intros [= <-]. by exists loc, g.
Qed.

(** The entries of a result, bin by bin: zeros where the batch was
    empty, the values of the iteration elsewhere. *)
Lemma calculate_values R j :
  calculate' = Ok R → (j < length (elev cfg))%nat →
  (trials (batch j) = [] →
     result_values R j =
       (Some 0, Some 0, Some 0, Some 0,
        Some (replicate (length (azimuths cfg)) 0))) ∧
  (trials (batch j) ≠ [] →
     ∃ Nj, trial_counts cfg !! j = Some Nj ∧
           result_values R j = written' Nj j).
Proof.
  intros (loc & g & Hloop & _ & ->)%calculate_Ok_inv Hj.
  destruct (loop_values _ _ _ _ (NoDup_seq 0 _) initial_shaped Hloop)
    as [_ Hvalues].
  destruct (Hvalues j Hj) as [Hkeep Hwrite].
  change (result_values _ j) with (bin_values loc j). split.
  - intros Hempty. rewrite Hkeep by by right. by apply initial_values.
  - intros Hne. apply Hwrite; [|done]. apply elem_of_seq. lia.
Qed.

Lemma calculate_Ok :
  (length (elev cfg) ≤ length (trial_counts cfg))%nat →
  (∃ j, (j < length (elev cfg))%nat ∧ trials (batch j) ≠ []) →
  ∃ R, calculate' = Ok R.
Proof.
  intros HN (j & Hj & Hne). unfold calculate.
  destruct (loop_Ok (seq 0 (length (elev cfg))) (initial cfg)) as [loc Hloop].
  { apply Forall_forall. intros i [_ Hi]%elem_of_seq.
    apply lookup_lt_is_Some. lia. }
  rewrite Hloop; simpl.
  destruct (loop_gain _ _ _ Hloop) as [g ->]; simpl; [|by eauto].
  right. apply Exists_exists. exists j. split; [|done].
  apply elem_of_seq. lia.
Qed.

Lemma loop_widths bins loc loc' :
  loop' bins loc = Ok loc' →
  rows_of_width (length (azimuths cfg)) (loc_effective_area loc) →
  rows_of_width (length (azimuths cfg)) (loc_effective_area loc').
Proof.
  revert loc. induction bins as [|i bins IH]; intros loc; simpl.
  { by intros [= <-]. }
  destruct (iteration' i loc) as [loc1|] eqn:Hit; simpl; [|done].
  intros Hloop Hrows. apply (IH loc1 Hloop).
  unfold iteration in Hit.
  destruct (trial_counts cfg !! i); simpl in Hit; [|done].
  case_bool_decide; simplify_eq/=; [done|].
  apply Forall_insert; [done|]. apply length_replicate.
Qed.

(** The results of [calculate] have the shape of the data model when [N]
    has one entry per elevation. *)
Lemma calculate_well_shaped R :
  calculate' = Ok R →
  length (trial_counts cfg) = length (elev cfg) →
  well_shaped R ∧ rows_of_width (length (azimuths cfg)) (effective_area R).
Proof.
  intros (loc & g & Hloop & _ & ->)%calculate_Ok_inv HN.
  destruct (loop_values _ _ _ _ (NoDup_seq 0 _) initial_shaped Hloop)
    as [(H1 & H2 & H3 & H4 & H5) _].
  unfold well_shaped; simpl. rewrite length_fmap. split; [done|].
  apply (loop_widths _ _ _ Hloop). unfold initial; simpl.
  apply Forall_replicate, length_replicate.
Qed.


(** What holds of C7.  With an entry of [N] for every elevation: at an
    elevation whose batch is empty the iteration raises nothing and
    leaves the local arrays as they are; [calculate] returns a result as
    soon as some elevation yields trials; and in every result, at every
    elevation whose batch is empty, the initial zeros remain:
    [geometric], [pexit], [pdecay] and [ptrigger] are 0 and the row of
    [effective_area] is all zeros.  When no elevation yields trials there
    is no result (C10). *)
Lemma empty_bins_stay_zero :
  (length (elev cfg) ≤ length (trial_counts cfg))%nat →
  (∀ i loc, (i < length (elev cfg))%nat → trials (batch i) = [] →
     iteration' i loc = Ok loc) ∧
  ((∃ j, (j < length (elev cfg))%nat ∧ trials (batch j) ≠ []) →
     ∃ R, calculate' = Ok R) ∧
  (∀ R i, calculate' = Ok R →
     (i < length (elev cfg))%nat → trials (batch i) = [] →
     geometric R !! i = Some 0 ∧
     pexit R !! i = Some 0 ∧
     pdecay R !! i = Some 0 ∧
     ptrigger R !! i = Some 0 ∧
     effective_area R !! i = Some (replicate (length (azimuths cfg)) 0)).
Proof.
  intros HN. split; [|split].
  - intros i loc Hi Hempty. apply iteration_empty; [|done].
    apply lookup_lt_is_Some. lia.
  - by apply calculate_Ok.
  - intros R i HR Hi Hempty.
    destruct (calculate_values R i HR Hi) as [Hzero _].
    specialize (Hzero Hempty). unfold result_values in Hzero.
    by simplify_eq.
Qed.
(** The bounds behind the effective area. *)
Lemma Qcmult_fraction (w p : Qc) :
  0 ≤ w → 0 ≤ p ≤ 1 → 0 ≤ w * p ∧ w * p ≤ w.
Proof.
  intros Hw [Hp0 Hp1]. split; [by apply Qcmult_nonneg_nonneg|].
  rewrite <-(Qcmult_1_r w) at 2. by apply Qcmult_le_mono_nonneg_l.
Qed.

Lemma trial_weight_bounds Ag t v :
  0 ≤ area Ag → 0 ≤ dot t →
  (∀ p, Pexit t = Some p → 0 ≤ p ≤ 1) →
  (∀ p, Pdecay t = Some p → 0 ≤ p ≤ 1) →
  trial_weight Ag t = Some v → 0 ≤ v ∧ v ≤ area Ag * dot t.
Proof.
  intros Ha Hd Hpe Hpd. unfold trial_weight, ma_mul; simpl.
  destruct (Pexit t) as [pe|]; simpl; [|done].
  destruct (Pdecay t) as [pd|]; simpl; [|done].
  intros [= <-].
  assert (0 ≤ area Ag * dot t) as Hw by by apply Qcmult_nonneg_nonneg.
  destruct (Qcmult_fraction _ pe Hw (Hpe pe eq_refl)) as [H1 H2].
  destruct (Qcmult_fraction _ pd H1 (Hpd pd eq_refl)) as [H3 H4].
  split; [done|]. by etrans.
Qed.

Lemma trial_contribution_le_weight Ag t c :
  (∀ v, trial_weight Ag t = Some v → 0 ≤ v) →
  trial_contribution' Ag t = Some c →
  ∃ v, trial_weight Ag t = Some v ∧ c ≤ v.
Proof.
  intros Hv. unfold trial_contribution, ma_mul.
  destruct (trial_weight Ag t) as [v|]; simpl; [|done].
  destruct (trial_trigger' t) as [b|]; simpl; [|done].
  intros [= <-]. exists v. split; [done|].
  destruct b; simpl.
  - by rewrite Qcmult_1_r.
  - rewrite Qcmult_0_r. by apply Hv.
Qed.

Lemma omap_Some {T A} (h : T → A) (ts : list T) :
  omap (λ t, Some (h t)) ts = h <$> ts.
Proof. induction ts as [|t ts IH]; csimpl; [done|]. by rewrite IH. Qed.

Lemma bin_untriggered_sum n Ag :
  bin_untriggered n Ag = np_sum (omap (trial_weight Ag) (trials Ag)) / n.
Proof.
  unfold bin_untriggered, weights.
  by rewrite stored_ma_sum, compressed_fmap.
Qed.

Lemma bin_geometric_sum n Ag :
  bin_geometric n Ag =
    np_sum (omap (λ t, Some (area Ag * dot t)) (trials Ag)) / n.
Proof.
  unfold bin_geometric.
  by rewrite omap_Some, (list_fmap_compose dot (Qcmult (area Ag))), np_sum_scale.
Qed.

(** C1, amended.  In every result of [calculate], at every elevation with
    a positive trial count whose batch has a non-negative area,
    non-negative dot products and exit and decay probabilities within
    [0, 1], each entry of the row of [effective_area] is at most the
    untriggered sum of the per-trial products over [N[i]] (the trigger only
    reduces) and at most [geometric[i]]. *)
Theorem effective_area_bounded (R : EffectiveArea) (i : nat) (Ni : Z) :
  calculate' = Ok R →
  (i < length (elev cfg))%nat →
  trial_counts cfg !! i = Some Ni → (0 < Ni)%Z →
  0 ≤ area (batch i) →
  Forall (λ t, 0 ≤ dot t ∧
               (∀ p, Pexit t = Some p → 0 ≤ p ≤ 1) ∧
               (∀ p, Pdecay t = Some p → 0 ≤ p ≤ 1)) (trials (batch i)) →
  ∃ g row,
    geometric R !! i = Some g ∧ effective_area R !! i = Some row ∧
    Forall (λ x, x ≤ bin_untriggered (float_of_int Ni) (batch i) ∧ x ≤ g) row.
Proof.
  intros HR Hi HNi Hpos Harea Htrials.
  pose proof (float_of_int_pos Ni Hpos) as Hn.
  destruct (calculate_values R i HR Hi) as [Hzero Hwritten].
  assert (∀ t, t ∈ trials (batch i) → ∀ v,
            trial_weight (batch i) t = Some v →
            0 ≤ v ∧ v ≤ area (batch i) * dot t) as Hweight.
  { intros t Ht v. rewrite Forall_forall in Htrials.
    destruct (Htrials t Ht) as (Hd & Hpe & Hpd).
    by apply trial_weight_bounds. }
  assert (bin_untriggered (float_of_int Ni) (batch i)
            ≤ bin_geometric (float_of_int Ni) (batch i)) as Hug.
  { rewrite bin_untriggered_sum, bin_geometric_sum.
    apply Qcdiv_le_mono; [done|]. apply np_sum_omap_le.
    apply Forall_forall. intros t Ht. split.
    - intros v Hv. exists (area (batch i) * dot t). split; [done|].
      by apply (Hweight t Ht v).
    - intros v [= <-]. rewrite Forall_forall in Htrials.
      apply Qcmult_nonneg_nonneg; [done|]. by destruct (Htrials t Ht). }
  assert (bin_effective_area' (float_of_int Ni) (batch i)
            ≤ bin_untriggered (float_of_int Ni) (batch i)) as Heu.
  { rewrite bin_effective_area_sum, bin_untriggered_sum.
    apply Qcdiv_le_mono; [done|]. apply np_sum_omap_le.
    apply Forall_forall. intros t Ht. split.
    - intros c. apply trial_contribution_le_weight.
      intros v Hv. by apply (Hweight t Ht v).
    - intros v Hv. by apply (Hweight t Ht v). }
  destruct (decide (trials (batch i) = [])) as [Hempty|Hne].
  - specialize (Hzero Hempty). unfold result_values in Hzero. simplify_eq.
    eexists _, _. split; [done|]. split; [done|].
    apply Forall_replicate. split; [|done].
    rewrite bin_untriggered_sum, Hempty. simpl.
    unfold Qcdiv. by rewrite Qcmult_0_l.
  - destruct (Hwritten Hne) as (Nj & HNj & Hval).
    unfold result_values, written in Hval. simplify_eq.
    eexists _, _. split; [done|]. split; [done|].
    apply Forall_replicate. split; [done|]. by etrans.
Qed.

(** C4, amended.  At an elevation whose batch has trials, the trials at
    which no tau exited raise nothing; [pexit[i]] is the mean of the exit
    probabilities over the trials at which a tau exited only (sum and
    count both leave the others out; when there is none the masked
    constant is assigned, for which the array holds NaN);
    and those trials contribute nothing to [effective_area[i, :]], whose sum is
    still divided by [N[i]]. *)
Theorem no_exit_trials_are_left_out (R : EffectiveArea) (i : nat) :
  calculate' = Ok R →
  (i < length (elev cfg))%nat →
  trials (batch i) ≠ [] →
  ∃ Ni, trial_counts cfg !! i = Some Ni ∧
    (∀ loc, ∃ loc', iteration' i loc = Ok loc') ∧
    pexit R !! i =
      Some (match omap Pexit (trials (batch i)) with
            | [] => nan
            | ps => np_sum ps / float_of_int (Z.of_nat (length ps))
            end) ∧
    effective_area R !! i =
      Some (replicate (length (azimuths cfg))
              (bin_effective_area' (float_of_int Ni) (drop_no_exit (batch i)))).
Proof.
  intros HR Hi Hne.
  destruct (calculate_values R i HR Hi) as [_ Hwritten].
  destruct (Hwritten Hne) as (Ni & HNi & Hval).
  unfold result_values, written in Hval.
  injection Hval as _ Hpe _ _ Hea.
  exists Ni. split; [done|]. split; [|split].
  - intros loc. by apply iteration_Ok.
  - rewrite Hpe. f_equal. unfold bin_pexit.
    by rewrite stored_ma_mean, compressed_fmap.
  - rewrite Hea. do 2 f_equal. rewrite !bin_effective_area_sum.
    unfold drop_no_exit at 2; simpl. f_equal.
    change (trial_contribution' (drop_no_exit (batch i)))
      with (trial_contribution' (batch i)).
    symmetry. f_equal. apply omap_filter_is_Some.
    intros t Ht. unfold trial_contribution, trial_weight, ma_mul; simpl.
    by rewrite Ht.
Qed.
End calculate_facts.

(** ** The visibility cuts *)

Lemma fmap_Forall2_ext {T U} (P : T → T → Prop) (f g : T → U) (ts ts' : list T) :
  Forall2 P ts ts' → (∀ t t', P t t' → f t = g t') → f <$> ts = g <$> ts'.
Proof.
  intros H Hfg. induction H as [|t t' ts ts' Ht _ IH]; csimpl; [done|].
  by rewrite (Hfg t t' Ht), IH.
Qed.

Section visibility.
Context (distance_to_horizon horizon_angle : Qc → Z → Qc).
Context (directivity : Z → list Z → Value) (np_degrees : Qc → Qc).
Context (nan : Qc) (cfg : Config).

Local Abbreviation horizon := (distance_to_horizon (altitude cfg) (icethickness cfg)).
Local Abbreviation angle := (horizon_angle (altitude cfg) (icethickness cfg)).
Local Abbreviation trigger' := (trigger distance_to_horizon horizon_angle cfg).
Local Abbreviation suppressed' :=
  (suppressed distance_to_horizon horizon_angle cfg).
Local Abbreviation trial_trigger' :=
  (trial_trigger distance_to_horizon horizon_angle cfg).
Local Abbreviation trial_contribution' :=
  (trial_contribution distance_to_horizon horizon_angle cfg).
Local Abbreviation differ' :=
  (differ_where_suppressed distance_to_horizon horizon_angle cfg).
Local Abbreviation calculate' batch :=
  (calculate batch distance_to_horizon horizon_angle directivity np_degrees nan cfg).
Local Abbreviation iteration' batch :=
  (iteration batch distance_to_horizon horizon_angle directivity nan cfg).
Local Abbreviation loop' batch :=
  (loop batch distance_to_horizon horizon_angle directivity nan cfg).








End visibility.

(** ** Loading and combining files *)

(** C2, as stated, fails in both halves.  [b.pkl] records the reference
    altitude and is skipped, where the specification has it combined;
    [d.pkl] records another altitude and is combined, where the
    specification has it skipped. *)
Lemma from_files_filter_is_inverted :
  from_files disk0 ["a.pkl"; "b.pkl"]%string = Ok runA ∧
  from_files_spec disk0 ["a.pkl"; "b.pkl"]%string = Ok runAB ∧
  from_files disk0 ["c.pkl"; "d.pkl"]%string = Ok (at_high runAB) ∧
  from_files_spec disk0 ["c.pkl"; "d.pkl"]%string = Ok highA ∧
  at_default_altitude runB ∧ ¬ at_default_altitude highB ∧
  runA ≠ runAB ∧ at_high runAB ≠ highA.
Proof. by_evaluation. Qed.

(** C2, amended.  When every file loads and records an altitude,
    [from_files] skips exactly the entries after the first whose recorded
    altitude equals 3.87553, and combines the others, in order, into the
    first (raising where a combination raises). *)
Theorem from_files_skips_default_altitude
    (disk : gmap string EffectiveArea) (f0 : string) (rest : list string)
    (A0 : EffectiveArea) (As : list EffectiveArea) :
  disk !! f0 = Some A0 →
  Forall2 (λ f A, disk !! f = Some A) rest As →
  Forall (λ A, is_Some (args A !! "altitude"%string)) As →
  from_files disk (f0 :: rest) =
    add_all A0 (filter (λ A, ¬ at_default_altitude A) As).
Proof.
  intros H0 Hrest Halt. unfold from_files, from_file. rewrite H0; simpl.
  clear H0. revert A0.
  induction Hrest as [|f A rest As Hf _ IH]; intros A0; simpl; [done|].
  apply Forall_cons in Halt as [[a Ha] Halt].
  unfold from_file. rewrite Hf; simpl. rewrite Ha; simpl.
  rewrite filter_cons.
  assert (at_default_altitude A ↔ a = VNum default_altitude) as Hiff.
  { unfold at_default_altitude. rewrite Ha. split; congruence. }
  case_bool_decide as Hdef;
    destruct (decide (¬ at_default_altitude A)) as [Hn|Hn].
  - by apply Hiff in Hdef.
  - by apply IH.
  - simpl. destruct (__add__ A0 A) as [A1|]; simpl; [|done]. by apply IH.
  - destruct Hn. by rewrite Hiff.
Qed.

Lemma from_files_skips_default_altitude_witness :
  disk0 !! "c.pkl"%string = Some highA ∧
  Forall2 (λ f A, disk0 !! f = Some A)
    ["b.pkl"; "d.pkl"; "a.pkl"]%string [runB; highB; runA] ∧
  Forall (λ A, is_Some (args A !! "altitude"%string)) [runB; highB; runA] ∧
  from_files disk0 ["c.pkl"; "b.pkl"; "d.pkl"; "a.pkl"]%string =
    add_all highA (filter (λ A, ¬ at_default_altitude A) [runB; highB; runA]).
Proof.
  assert (disk0 !! "c.pkl"%string = Some highA) as H0 by reflexivity.
  assert (Forall2 (λ f A, disk0 !! f = Some A)
            ["b.pkl"; "d.pkl"; "a.pkl"]%string [runB; highB; runA]) as H1
    by (repeat constructor).
  assert (Forall (λ A, is_Some (args A !! "altitude"%string))
            [runB; highB; runA]) as H2
    by (repeat constructor; by_evaluation).
  split; [exact H0|]. split; [exact H1|]. split; [exact H2|].
  exact (from_files_skips_default_altitude disk0 _ _ _ _ H0 H1 H2).
Defined.

(** The four files of the witness: the two at the default altitude are
    skipped, and [d.pkl] is combined into [c.pkl]. *)
Example from_files_four :
  from_files disk0 ["c.pkl"; "b.pkl"; "d.pkl"; "a.pkl"]%string
  = Ok (at_high runAB).
Proof. by_evaluation. Qed.



(** ** The claims on concrete runs *)


Example empty_bins_stay_zero_at_middle :
  (length (elev cfg3) ≤ length (trial_counts cfg3))%nat ∧
  (∀ i loc, (i < length (elev cfg3))%nat → trials (batches_middle i) = [] →
     iteration batches_middle horizon_distance0 horizon_angle0
       directivity0 nan0 cfg3 i loc = Ok loc) ∧
  ((∃ j, (j < length (elev cfg3))%nat ∧ trials (batches_middle j) ≠ []) →
     ∃ R, calculate batches_middle horizon_distance0 horizon_angle0
            directivity0 degrees0 nan0 cfg3 = Ok R) ∧
  (∀ R i, calculate batches_middle horizon_distance0 horizon_angle0
            directivity0 degrees0 nan0 cfg3 = Ok R →
     (i < length (elev cfg3))%nat → trials (batches_middle i) = [] →
     geometric R !! i = Some 0 ∧
     pexit R !! i = Some 0 ∧
     pdecay R !! i = Some 0 ∧
     ptrigger R !! i = Some 0 ∧
     effective_area R !! i = Some (replicate (length (azimuths cfg3)) 0)).
Proof.
  assert (length (elev cfg3) ≤ length (trial_counts cfg3))%nat as H
    by (vm_compute; lia).
  split; [exact H|].
  exact (empty_bins_stay_zero batches_middle horizon_distance0 horizon_angle0
           directivity0 degrees0 nan0 cfg3 H).
Qed.

(** C7, at a grid of one elevation that yields no trials.  The iteration
    skips the bin without error and leaves the zero-initialised locals as
    they are; but [calculate] then reads [gain], which only the body of
    the loop assigns, after the skip: it raises the unbound-variable error
    and returns no result, so that the zeros of the skipped bin are
    never output. *)
Lemma single_empty_bin_unbound_gain :
  elev cfg0 = [0] ∧ trial_counts cfg0 = [2%Z] ∧
  (∀ loc, iteration (λ _, batch_empty) horizon_distance0 horizon_angle0
            directivity0 nan0 cfg0 0 loc = Ok loc) ∧
  bin_values (initial cfg0) 0 =
    (Some 0, Some 0, Some 0, Some 0,
     Some (replicate (length (azimuths cfg0)) 0)) ∧
  calculate (λ _, batch_empty) horizon_distance0 horizon_angle0
    directivity0 degrees0 nan0 cfg0 = Raise UnboundLocalError.
Proof.
  split; [reflexivity|]. split; [reflexivity|]. split; [|split].
  - intros loc. apply iteration_empty; [by eexists|done].
  - by_evaluation.
  - by_evaluation.
Qed.

(** The result of that run: zeros at the first and third elevation. *)
Example calculate_batches_middle :
  calculate batches_middle horizon_distance0 horizon_angle0
    directivity0 degrees0 nan0 cfg3
  = Ok {| N0 := [2; 2; 2]%Z;
          elevation := degrees0 <$> [0; qc (-1) 8; qc (-1) 4];
          effective_area := [[0; 0]; [qc 1 8; qc 1 8]; [0; 0]];
          geometric := [0; 1; 0];
          pexit := [0; qc 1 4; 0];
          pdecay := [0; qc 1 4; 0];
          ptrigger := [0; 1; 0];
          args := make_args cfg3 (VArr [1; 1]) |}.
Proof. by_evaluation. Qed.

(** C1, as stated, fails: with exit and decay correlated over the trials
    of a bin the mean of the products, 1/8, exceeds the product of the
    means, 1 * 1/4 * 1/4. *)
Lemma effective_area_exceeds_factors :
  calculate (λ _, batch_correlated) horizon_distance0 horizon_angle0
    directivity0 degrees0 nan0 cfg0 = Ok run_correlated ∧
  ¬ bounded_by_factors run_correlated.
Proof.
  split; [by_evaluation|].
  intros H.
  specialize (H 0%nat [qc 1 8] 1 (qc 1 4) (qc 1 4)
                eq_refl eq_refl eq_refl eq_refl).
  apply Forall_inv in H. revert H. by_evaluation.
Qed.

Lemma effective_area_bounded_witness :
  ∃ g row,
    geometric run_correlated !! 0%nat = Some g ∧
    effective_area run_correlated !! 0%nat = Some row ∧
    Forall (λ x, x ≤ bin_untriggered (float_of_int 2) batch_correlated ∧ x ≤ g)
      row.
Proof.
  apply (effective_area_bounded (λ _, batch_correlated) horizon_distance0
           horizon_angle0 directivity0 degrees0 nan0 cfg0 run_correlated 0 2).
  - by_evaluation.
  - vm_compute; lia.
  - reflexivity.
  - lia.
  - by_evaluation.
  - repeat apply Forall_cons_2; [| |apply Forall_nil_2];
      (split; [by_evaluation|split; intros p [= <-]; split; by_evaluation]).
Defined.

(** C4, as stated, fails on [pexit]: of two trials, one without exit and
    one with exit probability 1/2, the stored mean is 1/2, not the mean
    1/4 over both trials. *)
Lemma pexit_leaves_no_exit_trials_out :
  pexit <$> calculate (λ _, batch_no_exit) horizon_distance0 horizon_angle0
              directivity0 degrees0 nan0 cfg0 = Ok [qc 1 2] ∧
  trial_counts cfg0 !! 0%nat = Some 2%Z ∧
  Pexit <$> trials batch_no_exit = [None; Some (qc 1 2)] ∧
  pexit_over_all_trials 2 batch_no_exit = qc 1 4.
Proof. by_evaluation. Qed.

Lemma no_exit_trials_are_left_out_witness :
  ∃ Ni, trial_counts cfg0 !! 0%nat = Some Ni ∧
    (∀ loc, ∃ loc', iteration (λ _, batch_no_exit) horizon_distance0
                      horizon_angle0 directivity0 nan0 cfg0 0 loc = Ok loc') ∧
    pexit run_no_exit !! 0%nat =
      Some (match omap Pexit (trials batch_no_exit) with
            | [] => nan0
            | ps => np_sum ps / float_of_int (Z.of_nat (length ps))
            end) ∧
    effective_area run_no_exit !! 0%nat =
      Some (replicate (length (azimuths cfg0))
              (bin_effective_area horizon_distance0 horizon_angle0 cfg0
                 (float_of_int Ni) (drop_no_exit batch_no_exit))).
Proof.
  apply (no_exit_trials_are_left_out (λ _, batch_no_exit) horizon_distance0
           horizon_angle0 directivity0 degrees0 nan0 cfg0 run_no_exit 0).
  - by_evaluation.
  - vm_compute; lia.
  - discriminate.
Defined.


(** The run of the witness: of four trials thrown and seen, the two that
    are not suppressed trigger. *)
Example calculate_batch_cut :
  calculate (λ _, batch_cut) horizon_distance0 horizon_angle0
    directivity0 degrees0 nan0 cfg_cut
  = Ok {| N0 := [4%Z]; elevation := [0];
          effective_area := [[qc 1 2]];
          geometric := [1]; pexit := [1]; pdecay := [1]; ptrigger := [qc 1 2];
          args := make_args cfg_cut (VArr [1]) |}.
Proof. by_evaluation. Qed.

(** * Further properties of the code *)

(** ** Combination: errors, shapes, repeated use *)

Lemma average_raises xs ys e : average xs ys = Raise e → e = BroadcastError.
Proof.
  unfold average, np_add.
  destruct (np_broadcast _ xs ys) as [zs|e'] eqn:Hzs; simpl; [done|].
  intros [= <-]. eapply np_broadcast_raises; [|exact Hzs]. by intros.
Qed.

Lemma np_add_int_raises xs ys e :
  np_add_int xs ys = Raise e → e = BroadcastError.
Proof. apply np_broadcast_raises. by intros. Qed.

(** The errors [__add__] can end in. *)
Lemma add_Raise_inv A B e :
  __add__ A B = Raise e →
  e = ElevationMismatch ∨ e = ArgsMismatch ∨ e = BroadcastError.
Proof.
  unfold __add__.
  case_bool_decide; simpl; [|intros [= <-]; by left].
  destruct (isclose_all _ _); simpl; [|intros [= <-]; by left].
  destruct (np_add_int _ _) as [n|e'] eqn:HN; simpl.
  2:{ intros [= <-]. right; right. by eapply np_add_int_raises. }
  case_bool_decide; [intros [= <-]; by right; left|].
  destruct (average2 _ _) as [ea|e'] eqn:Hea; simpl.
  2:{ intros [= <-]. right; right. by eapply average2_raises. }
  destruct (average (geometric A) _) as [g|e'] eqn:Hg; simpl.
  2:{ intros [= <-]. right; right. by eapply average_raises. }
  destruct (average (pexit A) _) as [pe|e'] eqn:Hpe; simpl.
  2:{ intros [= <-]. right; right. by eapply average_raises. }
  destruct (average (pdecay A) _) as [pd|e'] eqn:Hpd; simpl.
  2:{ intros [= <-]. right; right. by eapply average_raises. }
  destruct (average (ptrigger A) _) as [pt|e'] eqn:Hpt; simpl; [done|].
  intros [= <-]. right; right. by eapply average_raises.
Qed.

(** X1.  The checks of [__add__] come in a fixed order.  The elevation
    check is first and looks at nothing else: whatever the shapes and
    args of the operands, the elevation error is raised exactly when the
    grids are not numerically close (which includes grids of different
    lengths).  The trial counts are added next, before the args are
    compared: on close grids, an error of that addition is the outcome,
    whether the args agree or not. *)
Theorem add_checks_in_order (A B : EffectiveArea) :
  (__add__ A B = Raise ElevationMismatch ↔
     ¬ numerically_close (elevation A) (elevation B)) ∧
  (numerically_close (elevation A) (elevation B) →
   ∀ e, np_add_int (N0 A) (N0 B) = Raise e → __add__ A B = Raise e).
Proof.
  split.
  2:{ intros Hclose e HN. unfold __add__.
      pose proof (Forall2_length _ _ _ Hclose) as Hlen.
      rewrite bool_decide_eq_true_2 by done; simpl.
      apply (isclose_all_spec _ _ Hlen) in Hclose. rewrite Hclose; simpl.
      by rewrite HN. }
  unfold __add__.
  destruct (decide (length (elevation A) = length (elevation B))) as [Hlen|Hlen].
  2:{ rewrite bool_decide_eq_false_2 by done; simpl. split; [|done].
      intros _ Hclose. by apply Forall2_length in Hclose. }
  rewrite bool_decide_eq_true_2 by done; simpl.
  pose proof (isclose_all_spec _ _ Hlen) as Hclose.
  destruct (isclose_all _ _); simpl.
  2:{ split; [|done]. intros _ ?%Hclose. done. }
  split; [|intros Hn; destruct Hn; by apply Hclose].
  intros Hraise. exfalso. revert Hraise.
  destruct (np_add_int _ _) as [n|e'] eqn:HN; simpl.
  2:{ intros [= ->]. by apply np_add_int_raises in HN. }
  case_bool_decide; [done|].
  destruct (average2 _ _) as [ea|e'] eqn:Hea; simpl.
  2:{ intros [= ->]. by apply average2_raises in Hea. }
  destruct (average (geometric A) _) as [g|e'] eqn:Hg; simpl.
  2:{ intros [= ->]. by apply average_raises in Hg. }
  destruct (average (pexit A) _) as [pe|e'] eqn:Hpe; simpl.
  2:{ intros [= ->]. by apply average_raises in Hpe. }
  destruct (average (pdecay A) _) as [pd|e'] eqn:Hpd; simpl.
  2:{ intros [= ->]. by apply average_raises in Hpd. }
  destruct (average (ptrigger A) _) as [pt|e'] eqn:Hpt; simpl; [done|].
  intros [= ->]. by apply average_raises in Hpt.
Qed.

Lemma add_checks_in_order_witness :
  numerically_close (elevation runA) (elevation run_long_N0) ∧
  np_add_int (N0 runA) (N0 run_long_N0) = Raise BroadcastError ∧
  args runA ≠ args run_long_N0 ∧
  __add__ runA run_long_N0 = Raise BroadcastError.
Proof.
  assert (numerically_close (elevation runA) (elevation run_long_N0)) as H
    by by_evaluation.
  assert (np_add_int (N0 runA) (N0 run_long_N0) = Raise BroadcastError) as HN
    by reflexivity.
  split; [exact H|]. split; [exact HN|]. split; [by_evaluation|].
  exact (proj2 (add_checks_in_order runA run_long_N0) H BroadcastError HN).
Defined.

(** Arithmetic of the unweighted mean. *)
Lemma mean2_diag (a : Qc) : mean2 a a = a.
Proof.
  unfold mean2, qc. apply Qc_is_canon. simpl. rewrite !Qred_correct. ring.
Qed.

Lemma mean2_twice (a b c : Qc) :
  mean2 (mean2 a b) c = qc 1 4 * a + qc 1 4 * b + qc 1 2 * c.
Proof.
  unfold mean2, qc. apply Qc_is_canon. simpl. rewrite !Qred_correct. ring.
Qed.

Lemma close_refl (a : Qc) : close a a.
Proof.
  unfold close. replace (a - a) with (Q2Qc 0) by ring.
  rewrite (Qcabs_pos (Q2Qc 0)) by done.
  apply Qcplus_nonneg_nonneg; [by_evaluation|].
  apply Qcmult_nonneg_nonneg; [by_evaluation|apply Qcabs_nonneg].
Qed.

Lemma zip_with_diag {A B} (f : A → A → B) (xs : list A) :
  zip_with f xs xs = (λ x, f x x) <$> xs.
Proof. induction xs as [|x xs IH]; csimpl; [done|]. by rewrite IH. Qed.

(** X2.  A well-shaped result combines with itself, whatever its
    contents: every averaged array and the grid come back unchanged, and
    each trial count is added to itself (in [int64]). *)
Theorem add_self (A : EffectiveArea) :
  well_shaped A →
  __add__ A A =
    Ok {| N0 := (λ n, int64_add n n) <$> N0 A;
          elevation := elevation A;
          effective_area := effective_area A;
          geometric := geometric A;
          pexit := pexit A;
          pdecay := pdecay A;
          ptrigger := ptrigger A;
          args := args A |}.
Proof.
  intros HA. rewrite add_aligned; try done.
  - assert (∀ xs : list Qc, zip_with mean2 xs xs = xs) as Hmean.
    { intros xs. rewrite zip_with_diag.
      rewrite <-(list_fmap_id xs) at 2. apply list_fmap_ext.
      intros _ x _. apply mean2_diag. }
    rewrite !Hmean, !zip_with_diag. do 2 f_equal.
    rewrite <-(list_fmap_id (effective_area A)) at 2. apply list_fmap_ext.
    intros _ row _. apply Hmean.
  - unfold same_azimuths. by apply Forall_Forall2_diag, Forall_true.
  - unfold numerically_close. apply Forall_Forall2_diag, Forall_true, close_refl.
Qed.

Lemma add_self_witness :
  well_shaped runB ∧
  __add__ runB runB =
    Ok {| N0 := (λ n, int64_add n n) <$> N0 runB;
          elevation := elevation runB;
          effective_area := effective_area runB;
          geometric := geometric runB;
          pexit := pexit runB;
          pdecay := pdecay runB;
          ptrigger := ptrigger runB;
          args := args runB |}.
Proof.
  assert (well_shaped runB) as H by by_evaluation.
  split; [exact H|]. exact (add_self runB H).
Defined.

Lemma int64_wrap_add_l (x c : Z) :
  int64_wrap (int64_wrap x + c) = int64_wrap (x + c).
Proof.
  unfold int64_wrap.
  replace ((x + 2 ^ 63) `mod` 2 ^ 64 - 2 ^ 63 + c + 2 ^ 63)%Z
    with ((x + 2 ^ 63) `mod` 2 ^ 64 + c)%Z by lia.
  rewrite Zplus_mod_idemp_l. do 2 f_equal. lia.
Qed.

Lemma zip_with_rows_width (X Y : list (list Qc)) :
  Forall2 (λ r s : list Qc, length r = length s) X Y →
  Forall2 (λ r s : list Qc, length r = length s)
    (zip_with (zip_with mean2) X Y) X.
Proof.
  induction 1 as [|r s X Y Hrs _ IH]; simpl; constructor; [|done].
  by rewrite length_zip_with_l_eq.
Qed.

(** X3.  What a successful combination of two well-shaped results on
    the same azimuths returns is again well-shaped and on the azimuths of
    its operands, with the grid and args of the left operand: it can be
    combined further wherever the left operand could. *)
Theorem add_keeps_shape (A B R : EffectiveArea) :
  well_shaped A → well_shaped B → same_azimuths A B →
  __add__ A B = Ok R →
  well_shaped R ∧ same_azimuths R A ∧
  elevation R = elevation A ∧ args R = args A.
Proof.
  intros HA HB Haz HR.
  pose proof (add_Ok_inv _ _ _ HR)
    as (Hlen & Hclose & Hargs & _ & _ & _ & _ & _ & _ & Hel & Hargs').
  apply isclose_all_spec in Hclose; [|done].
  rewrite (add_aligned A B HA HB Haz Hclose Hargs) in HR.
  injection HR as <-. simpl.
  split; [|split; [|done]].
  - destruct HA as (HA1 & HA2 & HA3 & HA4 & HA5 & HA6).
    destruct HB as (HB1 & HB2 & HB3 & HB4 & HB5 & HB6).
    unfold well_shaped; simpl.
    rewrite !length_zip_with_l_eq by congruence. done.
  - unfold same_azimuths in *; simpl. by apply zip_with_rows_width.
Qed.

Lemma add_keeps_shape_witness :
  well_shaped runA ∧ well_shaped runB ∧ same_azimuths runA runB ∧
  __add__ runA runB = Ok runAB ∧
  well_shaped runAB ∧ same_azimuths runAB runA ∧
  elevation runAB = elevation runA ∧ args runAB = args runA.
Proof.
  assert (well_shaped runA) as H1 by by_evaluation.
  assert (well_shaped runB) as H2 by by_evaluation.
  assert (same_azimuths runA runB) as H3 by by_evaluation.
  assert (__add__ runA runB = Ok runAB) as H4 by by_evaluation.
  do 4 (split; [assumption|]).
  exact (add_keeps_shape runA runB runAB H1 H2 H3 H4).
Defined.

(** The 1-D arrays of a successful combination of well-shaped results,
    entry by entry. *)
Lemma add_lookup A B R i :
  well_shaped A → well_shaped B → __add__ A B = Ok R →
  N0 R !! i = (n ← N0 A !! i; m ← N0 B !! i; Some (int64_add n m)) ∧
  geometric R !! i = (a ← geometric A !! i; b ← geometric B !! i; Some (mean2 a b)) ∧
  pexit R !! i = (a ← pexit A !! i; b ← pexit B !! i; Some (mean2 a b)) ∧
  pdecay R !! i = (a ← pdecay A !! i; b ← pdecay B !! i; Some (mean2 a b)) ∧
  ptrigger R !! i = (a ← ptrigger A !! i; b ← ptrigger B !! i; Some (mean2 a b)).
Proof.
  intros (HA1 & HA2 & HA3 & HA4 & HA5 & HA6) (HB1 & HB2 & HB3 & HB4 & HB5 & HB6).
  intros (Hlen & _ & _ & HN & _ & Hg & Hpe & Hpd & Hpt & _ & _)%add_Ok_inv.
  rewrite np_add_int_aligned in HN by congruence.
  rewrite average_aligned in Hg, Hpe, Hpd, Hpt by congruence.
  simplify_eq. rewrite <-HN, <-Hg, <-Hpe, <-Hpd, <-Hpt.
  by rewrite !lookup_zip_with.
Qed.

(** X4.  Combination is not a running mean.  Combining a third result
    into the combination of two weights the third by one half and the
    first two by one quarter each, in every averaged per-elevation array,
    while the trial counts of all three are summed (in [int64]): a chain of
    combinations, as [from_files] builds it, favours the results combined
    last. *)
Theorem add_twice_weights (A B C AB R : EffectiveArea) (i : nat) (n m k : Z)
    (g1 g2 g3 e1 e2 e3 d1 d2 d3 t1 t2 t3 : Qc) :
  well_shaped A → well_shaped B → well_shaped C →
  __add__ A B = Ok AB → __add__ AB C = Ok R →
  N0 A !! i = Some n → N0 B !! i = Some m → N0 C !! i = Some k →
  geometric A !! i = Some g1 → geometric B !! i = Some g2 →
  geometric C !! i = Some g3 →
  pexit A !! i = Some e1 → pexit B !! i = Some e2 → pexit C !! i = Some e3 →
  pdecay A !! i = Some d1 → pdecay B !! i = Some d2 → pdecay C !! i = Some d3 →
  ptrigger A !! i = Some t1 → ptrigger B !! i = Some t2 →
  ptrigger C !! i = Some t3 →
  N0 R !! i = Some (int64_wrap (n + m + k)) ∧
  geometric R !! i = Some (qc 1 4 * g1 + qc 1 4 * g2 + qc 1 2 * g3) ∧
  pexit R !! i = Some (qc 1 4 * e1 + qc 1 4 * e2 + qc 1 2 * e3) ∧
  pdecay R !! i = Some (qc 1 4 * d1 + qc 1 4 * d2 + qc 1 2 * d3) ∧
  ptrigger R !! i = Some (qc 1 4 * t1 + qc 1 4 * t2 + qc 1 2 * t3).
Proof.
  intros HA HB HC HAB HR Hn Hm Hk Hg1 Hg2 Hg3 He1 He2 He3 Hd1 Hd2 Hd3 Ht1 Ht2 Ht3.
  pose proof (add_well_shaped A B AB HA HB HAB) as HABs.
  destruct (add_lookup A B AB i HA HB HAB) as (HN1 & HG1 & HE1 & HD1 & HT1).
  destruct (add_lookup AB C R i HABs HC HR) as (HN2 & HG2 & HE2 & HD2 & HT2).
  rewrite HN2, HN1, HG2, HG1, HE2, HE1, HD2, HD1, HT2, HT1.
  rewrite Hn, Hm, Hk, Hg1, Hg2, Hg3, He1, He2, He3, Hd1, Hd2, Hd3, Ht1, Ht2, Ht3.
  simpl. rewrite !mean2_twice. unfold int64_add.
  by rewrite int64_wrap_add_l.
Qed.

Lemma add_twice_weights_witness :
  ∃ R, __add__ runAB runA = Ok R ∧
    N0 R !! 0%nat = Some (int64_wrap (100 + 300 + 100)) ∧
    geometric R !! 0%nat = Some (qc 1 4 * 1 + qc 1 4 * qc 3 1 + qc 1 2 * 1) ∧
    pexit R !! 0%nat
      = Some (qc 1 4 * qc 1 2 + qc 1 4 * qc 1 4 + qc 1 2 * qc 1 2) ∧
    pdecay R !! 0%nat = Some (qc 1 4 * qc 1 2 + qc 1 4 * 1 + qc 1 2 * qc 1 2) ∧
    ptrigger R !! 0%nat = Some (qc 1 4 * 1 + qc 1 4 * 0 + qc 1 2 * 1).
Proof.
  destruct (__add__ runAB runA) as [R|] eqn:HR; [|by vm_compute in HR].
  exists R. split; [reflexivity|].
  apply (add_twice_weights runA runB runA runAB R 0); try reflexivity;
    try exact HR; by_evaluation.
Defined.

(** ** Loading: errors and what survives the loop *)

Lemma from_files_rest_Raise_inv disk rest Aeff e :
  from_files_rest disk rest Aeff = Raise e →
  e = FileNotFoundError ∨ e = KeyError ∨ e = ElevationMismatch ∨
  e = ArgsMismatch ∨ e = BroadcastError.
Proof.
  revert Aeff. induction rest as [|f rest IH]; intros Aeff; simpl; [done|].
  unfold from_file.
  destruct (disk !! f) as [A|]; simpl; [|intros [= <-]; by left].
  destruct (args A !! "altitude"%string) as [a|]; simpl;
    [|intros [= <-]; by right; left].
  case_bool_decide; [by apply IH|].
  destruct (__add__ Aeff A) as [Aeff'|e'] eqn:Hadd; simpl; [by apply IH|].
  intros [= <-]. apply add_Raise_inv in Hadd.
  destruct Hadd as [Hadd|[Hadd|Hadd]]; rewrite Hadd; auto 10.
Qed.

(** X5.  [from_files] raises its own error, that no filenames were
    given, exactly on the empty list: nothing that loading or combining
    the files of a non-empty list can end in is that error. *)
Theorem from_files_no_filenames_iff
    (disk : gmap string EffectiveArea) (filenames : list string) :
  from_files disk filenames = Raise NoFilenames ↔ filenames = [].
Proof.
  destruct filenames as [|f rest]; simpl; [done|].
  unfold from_file. destruct (disk !! f) as [A|]; simpl; [|done].
  split; [|done]. intros H%from_files_rest_Raise_inv.
  by destruct H as [?|[?|[?|[?|?]]]].
Qed.

Lemma from_files_rest_keeps disk rest Aeff R :
  from_files_rest disk rest Aeff = Ok R →
  elevation R = elevation Aeff ∧ args R = args Aeff.
Proof.
  revert Aeff. induction rest as [|f rest IH]; intros Aeff; simpl.
  { by intros [= <-]. }
  destruct (from_file disk f) as [A|]; simpl; [|done].
  destruct (args A !! "altitude"%string) as [a|]; simpl; [|done].
  case_bool_decide; [by apply IH|].
  destruct (__add__ Aeff A) as [Aeff'|] eqn:Hadd; simpl; [|done].
  intros [-> ->]%IH.
  by apply add_Ok_inv in Hadd as (_ & _ & _ & _ & _ & _ & _ & _ & _ & ? & ?).
Qed.

(** X6.  Whatever is combined on the way, a result of [from_files]
    carries the elevation grid and the args of the first file, unchanged. *)
Theorem from_files_keeps_first_grid_and_args
    (disk : gmap string EffectiveArea) (f : string) (rest : list string)
    (A R : EffectiveArea) :
  disk !! f = Some A →
  from_files disk (f :: rest) = Ok R →
  elevation R = elevation A ∧ args R = args A.
Proof.
  intros Hf. unfold from_files, from_file. rewrite Hf; simpl.
  apply from_files_rest_keeps.
Qed.

Lemma from_files_keeps_first_grid_and_args_witness :
  disk0 !! "c.pkl"%string = Some highA ∧
  from_files disk0 ["c.pkl"; "b.pkl"; "d.pkl"; "a.pkl"]%string
    = Ok (at_high runAB) ∧
  elevation (at_high runAB) = elevation highA ∧
  args (at_high runAB) = args highA.
Proof.
  assert (disk0 !! "c.pkl"%string = Some highA) as H1 by reflexivity.
  assert (from_files disk0 ["c.pkl"; "b.pkl"; "d.pkl"; "a.pkl"]%string
            = Ok (at_high runAB)) as H2 by by_evaluation.
  split; [exact H1|]. split; [exact H2|].
  exact (from_files_keeps_first_grid_and_args disk0 _ _ _ _ H1 H2).
Defined.

(** X7.  When the first file records the altitude 3.87553, the default
    of [calculate], [from_files] combines nothing: a later file is either
    skipped for having that altitude, or has other args and makes the
    combination raise.  A result, if there is one, is the first file. *)
Theorem from_files_default_altitude_first
    (disk : gmap string EffectiveArea) (f : string) (rest : list string)
    (A R : EffectiveArea) :
  disk !! f = Some A → at_default_altitude A →
  from_files disk (f :: rest) = Ok R →
  R = A.
Proof.
  intros Hf Hdef. unfold from_files, from_file. rewrite Hf; simpl. clear Hf.
  induction rest as [|g rest IH]; simpl; [by intros [= <-]|].
  destruct (from_file disk g) as [B|]; simpl; [|done].
  destruct (args B !! "altitude"%string) as [b|] eqn:Hb; simpl; [|done].
  case_bool_decide as Hskip; [done|].
  destruct (__add__ A B) as [AB|] eqn:Hadd; simpl; [|done].
  apply add_Ok_inv in Hadd as (_ & _ & Hargs & _).
  unfold at_default_altitude in Hdef. rewrite Hargs, Hb in Hdef.
  by simplify_eq.
Qed.

Lemma from_files_default_altitude_first_witness :
  disk0 !! "a.pkl"%string = Some runA ∧ at_default_altitude runA ∧
  from_files disk0 ["a.pkl"; "b.pkl"; "a.pkl"]%string = Ok runA ∧
  runA = runA.
Proof.
  assert (disk0 !! "a.pkl"%string = Some runA) as H1 by reflexivity.
  assert (at_default_altitude runA) as H2 by reflexivity.
  assert (from_files disk0 ["a.pkl"; "b.pkl"; "a.pkl"]%string = Ok runA)
    as H3 by by_evaluation.
  split; [exact H1|]. split; [exact H2|]. split; [exact H3|].
  exact (from_files_default_altitude_first disk0 _ _ _ _ H1 H2 H3).
Defined.

(** With a first file at the default altitude, a file from a run at
    another altitude stops the load. *)
Example from_files_default_then_high :
  from_files disk0 ["a.pkl"; "b.pkl"; "d.pkl"]%string = Raise ArgsMismatch.
Proof. by_evaluation. Qed.

(** ** The loop: outcomes and shapes *)

Section calculate_outcomes.
Context (batch : nat → Batch).
Context (distance_to_horizon horizon_angle : Qc → Z → Qc).
Context (directivity : Z → list Z → Value) (np_degrees : Qc → Qc).
Context (nan : Qc) (cfg : Config).

Local Abbreviation iteration' :=
  (iteration batch distance_to_horizon horizon_angle directivity nan cfg).
Local Abbreviation loop' :=
  (loop batch distance_to_horizon horizon_angle directivity nan cfg).
Local Abbreviation calculate' :=
  (calculate batch distance_to_horizon horizon_angle directivity np_degrees nan cfg).

Lemma loop_IndexError m : ∀ k loc,
  (k ≤ length (trial_counts cfg) < k + m)%nat →
  loop' (seq k m) loc = Raise IndexError.
Proof.
  induction m as [|m IH]; intros k loc Hk; [lia|]. simpl.
  destruct (decide (k = length (trial_counts cfg))) as [->|Hne].
  - unfold iteration. by rewrite lookup_ge_None_2.
  - destruct (iteration_Ok batch distance_to_horizon horizon_angle directivity
                nan cfg k loc) as [loc1 ->].
    { apply lookup_lt_is_Some. lia. }
    simpl. apply IH. lia.
Qed.

(** X8.  When [N] is an array with fewer entries than there are
    elevations, [calculate] raises the index error of [N[i]]: the counts
    are read before the batch is looked at, so this holds whatever the
    batches are, empty ones included. *)
Theorem calculate_short_N :
  (length (trial_counts cfg) < length (elev cfg))%nat →
  calculate' = Raise IndexError.
Proof.
  intros HN. unfold calculate.
  rewrite (loop_IndexError (length (elev cfg)) 0); [done|lia].
Qed.

Lemma loop_Ok_inv bins loc loc' :
  loop' bins loc = Ok loc' →
  Forall (λ i, is_Some (trial_counts cfg !! i)) bins ∧
  (is_Some (loc_gain loc') →
   is_Some (loc_gain loc) ∨ Exists (λ i, trials (batch i) ≠ []) bins).
Proof.
  revert loc. induction bins as [|i bins IH]; intros loc; simpl.
  { intros [= <-]. split; [constructor|by left]. }
  destruct (iteration' i loc) as [loc1|] eqn:Hit; simpl; [|done].
  intros [Hbins Hgain]%IH.
  apply iteration_inv in Hit as (Ni & HNi & Hit). split.
  - constructor; [by eexists|done].
  - intros [Hg|Hex]%Hgain.
    + destruct Hit as [[_ ->]|(Hne & _)]; [by left|].
      right. by apply Exists_cons_hd.
    + right. by apply Exists_cons_tl.
Qed.

(** X9.  With an [N] that is an array, or a scalar in the range of
    [int64]: [calculate] returns a result exactly when [N] has an entry
    for every elevation and at least one elevation yields trials;
    otherwise it raises, and only the index error or the unbound-variable
    error. *)
Theorem calculate_returns_iff :
  N_fits_int64 cfg →
  ((∃ R, calculate' = Ok R) ↔
     (length (elev cfg) ≤ length (trial_counts cfg))%nat ∧
     ∃ j, (j < length (elev cfg))%nat ∧ trials (batch j) ≠ []) ∧
  (∀ e, calculate' = Raise e → e = IndexError ∨ e = UnboundLocalError).
Proof.
  intros _. split; [split|].
  - intros [R (loc & g & Hloop & Hg & _)%calculate_Ok_inv].
    apply loop_Ok_inv in Hloop as [Hbins Hgain]. split.
    + destruct (decide (length (elev cfg) ≤ length (trial_counts cfg))%nat)
        as [|Hlt]; [done|].
      rewrite Forall_forall in Hbins.
      destruct (Hbins (length (trial_counts cfg))) as [x Hx].
      { apply elem_of_seq. lia. }
      apply lookup_lt_Some in Hx. lia.
    + destruct Hgain as [[? [=]]|Hex]; [by rewrite Hg|].
      apply Exists_exists in Hex as (j & [_ Hj]%elem_of_seq & Hne).
      exists j. split; [lia|done].
  - intros [HN Hex]. by apply calculate_Ok.
  - intros e. unfold calculate.
    destruct (decide (length (elev cfg) ≤ length (trial_counts cfg))%nat)
      as [HN|HN].
    + destruct (loop_Ok batch distance_to_horizon horizon_angle directivity
                  nan cfg (seq 0 (length (elev cfg))) (initial cfg))
        as [loc ->]; simpl.
      { apply Forall_forall. intros i [_ Hi]%elem_of_seq.
        apply lookup_lt_is_Some. lia. }
      destruct (loc_gain loc); simpl; [done|]. intros [= <-]. by right.
    + rewrite (loop_IndexError (length (elev cfg)) 0) by lia.
      intros [= <-]. by left.
Qed.

(** X10.  A result of [calculate] for which [N] has one entry per
    elevation has the shape of the data model: [N0] is [N], the grid is
    the input grid in degrees, every per-elevation array has one entry
    per elevation and every row of [effective_area] one entry per
    azimuth. *)
Theorem calculate_result_shape (R : EffectiveArea) :
  calculate' = Ok R →
  length (trial_counts cfg) = length (elev cfg) →
  N0 R = trial_counts cfg ∧
  elevation R = np_degrees <$> elev cfg ∧
  well_shaped R ∧
  rows_of_width (length (azimuths cfg)) (effective_area R).
Proof.
  intros HR HN.
  destruct (calculate_well_shaped batch distance_to_horizon horizon_angle
              directivity np_degrees nan cfg R HR HN) as [Hshape Hrows].
  apply calculate_Ok_inv in HR as (loc & g & _ & _ & ->). done.
Qed.

(** X11.  The azimuth grid does not reach the per-trial computation:
    every row of [effective_area] in a result holds one and the same value
    in all its azimuth bins. *)
Theorem effective_area_rows_constant (R : EffectiveArea) (i : nat)
    (row : list Qc) :
  calculate' = Ok R →
  effective_area R !! i = Some row →
  ∃ v, row = replicate (length (azimuths cfg)) v.
Proof.
  intros HR Hrow.
  assert (i < length (elev cfg))%nat as Hi.
  { pose proof HR as (loc & g & Hloop & _ & ->)%calculate_Ok_inv.
    destruct (loop_values batch distance_to_horizon horizon_angle directivity
                nan cfg _ _ _ _ (NoDup_seq 0 _) (initial_shaped cfg) Hloop)
      as [(_ & _ & _ & _ & Hlen) _].
    apply lookup_lt_Some in Hrow. simpl in Hrow. lia. }
  destruct (calculate_values batch distance_to_horizon horizon_angle
              directivity np_degrees nan cfg R i HR Hi) as [Hzero Hwritten].
  destruct (decide (trials (batch i) = [])) as [Hempty|Hne].
  - specialize (Hzero Hempty). unfold result_values in Hzero.
    injection Hzero as _ _ _ _ Hea. rewrite Hea in Hrow.
    exists 0. congruence.
  - destruct (Hwritten Hne) as (Ni & _ & Hval).
    unfold result_values, written in Hval.
    injection Hval as _ _ _ _ Hea. rewrite Hea in Hrow.
    eexists. by injection Hrow as <-.
Qed.

(** X19.  When [N] is a scalar in the range of [int64] it is thrown at
    every elevation, and the index error cannot occur: [calculate] raises
    the unbound-variable error exactly when no elevation yields trials,
    raises nothing else, and returns as soon as one elevation yields
    trials, with a result that records [N] once per elevation. *)
Theorem calculate_scalar_N (n : Z) :
  N cfg = NInt n → int64_range n →
  (calculate batch distance_to_horizon horizon_angle directivity
     np_degrees nan cfg = Raise UnboundLocalError ↔
   ∀ j, (j < length (elev cfg))%nat → trials (batch j) = []) ∧
  (∀ e, calculate batch distance_to_horizon horizon_angle directivity
          np_degrees nan cfg = Raise e → e = UnboundLocalError) ∧
  ((∃ j, (j < length (elev cfg))%nat ∧ trials (batch j) ≠ []) →
   ∃ R, calculate batch distance_to_horizon horizon_angle directivity
          np_degrees nan cfg = Ok R ∧
        N0 R = replicate (length (elev cfg)) n).
Proof.
  intros HN _.
  assert (trial_counts cfg = replicate (length (elev cfg)) n) as Hcounts.
  { unfold trial_counts. by rewrite HN. }
  assert (Forall (λ i, is_Some (trial_counts cfg !! i))
            (seq 0 (length (elev cfg)))) as Hbins.
  { apply Forall_forall. intros i [_ Hi]%elem_of_seq.
    apply lookup_lt_is_Some. rewrite Hcounts, length_replicate. lia. }
  destruct (loop_Ok batch distance_to_horizon horizon_angle directivity
              nan cfg (seq 0 (length (elev cfg))) (initial cfg) Hbins)
    as [loc Hloop].
  assert (∀ e, calculate batch distance_to_horizon horizon_angle directivity
                 np_degrees nan cfg = Raise e →
               e = UnboundLocalError ∧ loc_gain loc = None) as Hraise.
  { intros e He. unfold calculate in He. rewrite Hloop in He; simpl in He.
    destruct (loc_gain loc) as [g|]; simpl in He; [done|].
    by injection He as <-. }
  split; [split|split].
  - intros [_ Hg]%Hraise j Hj.
    destruct (decide (trials (batch j) = [])) as [|Hne]; [done|]. exfalso.
    destruct (loop_gain batch distance_to_horizon horizon_angle directivity
                nan cfg _ _ _ Hloop) as [g Hg'].
    + right. apply Exists_exists. exists j. split; [|done].
      apply elem_of_seq. lia.
    + congruence.
  - intros Hempty. unfold calculate. rewrite loop_all_empty; [done|].
    apply Forall_forall. intros i Hi. split.
    + rewrite Forall_forall in Hbins. by apply Hbins.
    + apply Hempty. apply elem_of_seq in Hi. lia.
  - intros e He. by destruct (Hraise e He).
  - intros Hex.
    destruct (calculate_Ok batch distance_to_horizon horizon_angle directivity
                np_degrees nan cfg) as [R HR]; [|done|].
    { rewrite Hcounts, length_replicate. lia. }
    exists R. split; [done|].
    by apply calculate_Ok_inv in HR as (loc' & g & _ & _ & ->).
Qed.
End calculate_outcomes.

(** A run that raises, and a run that returns. *)
Lemma calculate_scalar_N_witness :
  N cfg3 = NInt 2 ∧ int64_range 2 ∧
  (∀ j, (j < length (elev cfg3))%nat → trials batch_empty = []) ∧
  calculate (λ _, batch_empty) horizon_distance0 horizon_angle0
    directivity0 degrees0 nan0 cfg3 = Raise UnboundLocalError ∧
  (∃ j, (j < length (elev cfg3))%nat ∧ trials (batches_middle j) ≠ []) ∧
  ∃ R, calculate batches_middle horizon_distance0 horizon_angle0
         directivity0 degrees0 nan0 cfg3 = Ok R ∧
       N0 R = replicate (length (elev cfg3)) 2%Z.
Proof.
  assert (int64_range 2) as Hr by (unfold int64_range; lia).
  assert (∀ j : nat, (j < length (elev cfg3))%nat → trials batch_empty = [])
    as Hempty by reflexivity.
  assert (∃ j, (j < length (elev cfg3))%nat ∧ trials (batches_middle j) ≠ [])
    as Hex.
  { exists 1%nat. split; [vm_compute; lia|done]. }
  split; [reflexivity|]. split; [exact Hr|]. split; [exact Hempty|]. split.
  { exact (proj2 (proj1 (calculate_scalar_N (λ _, batch_empty)
                           horizon_distance0 horizon_angle0 directivity0
                           degrees0 nan0 cfg3 2 eq_refl Hr)) Hempty). }
  split; [exact Hex|].
  exact (proj2 (proj2 (calculate_scalar_N batches_middle horizon_distance0
                         horizon_angle0 directivity0 degrees0 nan0 cfg3 2
                         eq_refl Hr)) Hex).
Defined.

Lemma calculate_short_N_witness :
  (length (trial_counts cfg_short_N) < length (elev cfg_short_N))%nat ∧
  calculate batches_middle horizon_distance0 horizon_angle0 directivity0
    degrees0 nan0 cfg_short_N = Raise IndexError.
Proof.
  assert (length (trial_counts cfg_short_N) < length (elev cfg_short_N))%nat
    as H by (vm_compute; lia).
  split; [exact H|].
  exact (calculate_short_N batches_middle horizon_distance0 horizon_angle0
           directivity0 degrees0 nan0 cfg_short_N H).
Defined.

(** A run that returns, and a run that raises. *)
Lemma calculate_returns_iff_witness :
  N_fits_int64 cfg3 ∧
  ((length (elev cfg3) ≤ length (trial_counts cfg3))%nat ∧
   ∃ j, (j < length (elev cfg3))%nat ∧ trials (batches_middle j) ≠ []) ∧
  (∃ R, calculate batches_middle horizon_distance0 horizon_angle0 directivity0
          degrees0 nan0 cfg3 = Ok R) ∧
  N_fits_int64 cfg_short_N ∧
  calculate batches_middle horizon_distance0 horizon_angle0 directivity0
    degrees0 nan0 cfg_short_N = Raise IndexError ∧
  ¬ ∃ R, calculate batches_middle horizon_distance0 horizon_angle0
           directivity0 degrees0 nan0 cfg_short_N = Ok R.
Proof.
  assert (N_fits_int64 cfg3) as HN by (vm_compute; split; [discriminate|done]).
  assert ((length (elev cfg3) ≤ length (trial_counts cfg3))%nat ∧
          ∃ j, (j < length (elev cfg3))%nat ∧ trials (batches_middle j) ≠ [])
    as H.
  { split; [vm_compute; lia|]. exists 1%nat. split; [vm_compute; lia|done]. }
  assert (N_fits_int64 cfg_short_N) as HN' by exact I.
  assert (calculate batches_middle horizon_distance0 horizon_angle0
            directivity0 degrees0 nan0 cfg_short_N = Raise IndexError) as HR
    by by_evaluation.
  split; [exact HN|]. split; [exact H|]. split.
  { exact (proj2 (proj1 (calculate_returns_iff batches_middle
                           horizon_distance0 horizon_angle0 directivity0
                           degrees0 nan0 cfg3 HN)) H). }
  split; [exact HN'|]. split; [exact HR|].
  intros Hex.
  destruct (proj1 (proj1 (calculate_returns_iff batches_middle
                            horizon_distance0 horizon_angle0 directivity0
                            degrees0 nan0 cfg_short_N HN')) Hex) as [Hlen _].
  vm_compute in Hlen. lia.
Defined.

Lemma calculate_result_shape_witness :
  calculate (λ _, batch_correlated) horizon_distance0 horizon_angle0
    directivity0 degrees0 nan0 cfg0 = Ok run_correlated ∧
  length (trial_counts cfg0) = length (elev cfg0) ∧
  N0 run_correlated = trial_counts cfg0 ∧
  elevation run_correlated = degrees0 <$> elev cfg0 ∧
  well_shaped run_correlated ∧
  rows_of_width (length (azimuths cfg0)) (effective_area run_correlated).
Proof.
  assert (calculate (λ _, batch_correlated) horizon_distance0 horizon_angle0
            directivity0 degrees0 nan0 cfg0 = Ok run_correlated) as HR
    by by_evaluation.
  assert (length (trial_counts cfg0) = length (elev cfg0)) as HN
    by reflexivity.
  split; [exact HR|]. split; [exact HN|].
  exact (calculate_result_shape (λ _, batch_correlated) horizon_distance0
           horizon_angle0 directivity0 degrees0 nan0 cfg0 run_correlated
           HR HN).
Defined.

Lemma effective_area_rows_constant_witness :
  calculate (λ _, batch_correlated) horizon_distance0 horizon_angle0
    directivity0 degrees0 nan0 cfg0 = Ok run_correlated ∧
  effective_area run_correlated !! 0%nat = Some [qc 1 8] ∧
  ∃ v, [qc 1 8] = replicate (length (azimuths cfg0)) v.
Proof.
  assert (calculate (λ _, batch_correlated) horizon_distance0 horizon_angle0
            directivity0 degrees0 nan0 cfg0 = Ok run_correlated) as HR
    by by_evaluation.
  assert (effective_area run_correlated !! 0%nat = Some [qc 1 8]) as Hrow
    by reflexivity.
  split; [exact HR|]. split; [exact Hrow|].
  exact (effective_area_rows_constant (λ _, batch_correlated)
           horizon_distance0 horizon_angle0 directivity0 degrees0 nan0 cfg0
           run_correlated 0 [qc 1 8] HR Hrow).
Defined.

(** ** The loop: what the result depends on, and how results compose *)

Section calculate_compose.
Context (distance_to_horizon horizon_angle : Qc → Z → Qc).
Context (directivity : Z → list Z → Value) (np_degrees : Qc → Qc).
Context (nan : Qc).

Local Abbreviation calculate' batch cfg :=
  (calculate batch distance_to_horizon horizon_angle directivity np_degrees nan cfg).
Local Abbreviation iteration' batch cfg :=
  (iteration batch distance_to_horizon horizon_angle directivity nan cfg).
Local Abbreviation loop' batch cfg :=
  (loop batch distance_to_horizon horizon_angle directivity nan cfg).
Local Abbreviation gain_of cfg :=
  (directivity (prototype cfg) ((λ a, a `mod` 360)%Z <$> azimuths cfg)).

Lemma loop_gain_value batch cfg bins loc loc' g :
  loop' batch cfg bins loc = Ok loc' →
  loc_gain loc' = Some g →
  loc_gain loc = Some g ∨ g = gain_of cfg.
Proof.
  revert loc. induction bins as [|i bins IH]; intros loc; simpl.
  { intros [= <-] ?. by left. }
  destruct (iteration' batch cfg i loc) as [loc1|] eqn:Hit; simpl; [|done].
  intros Hloop Hg. destruct (IH loc1 Hloop Hg) as [Hg1|?]; [|by right].
  apply iteration_inv in Hit as (Ni & _ & [[_ ->]|(_ & Hgain & _)]);
    [by left|].
  right. congruence.
Qed.

Lemma calculate_args batch cfg R :
  calculate' batch cfg = Ok R → args R = make_args cfg (gain_of cfg).
Proof.
  intros (loc & g & Hloop & Hg & ->)%calculate_Ok_inv. simpl.
  by destruct (loop_gain_value _ _ _ _ _ _ Hloop Hg) as [[=]| ->].
Qed.

(** X12.  Two runs of [calculate] under one configuration (with one
    entry of [N] per elevation, and a gain of one entry, as the default
    azimuth grid gives, so that the args of the two runs compare as their
    contents do), whatever their batches, can always be combined:
    [__add__] raises nothing, its result keeps the grid and the args of
    the runs and the shape of the data model, and each trial count is
    doubled. *)
Theorem calculate_runs_combine (batch1 batch2 : nat → Batch) (cfg : Config)
    (R1 R2 : EffectiveArea) :
  calculate' batch1 cfg = Ok R1 →
  calculate' batch2 cfg = Ok R2 →
  length (trial_counts cfg) = length (elev cfg) →
  one_valued (gain_of cfg) →
  ∃ R, __add__ R1 R2 = Ok R ∧
    N0 R = (λ n, int64_add n n) <$> trial_counts cfg ∧
    elevation R = elevation R1 ∧ args R = args R1 ∧ well_shaped R.
Proof.
  intros H1 H2 HN _.
  destruct (calculate_well_shaped _ _ _ _ _ _ _ _ H1 HN) as [Hs1 Hw1].
  destruct (calculate_well_shaped _ _ _ _ _ _ _ _ H2 HN) as [Hs2 Hw2].
  pose proof (calculate_args _ _ _ H1) as Ha1.
  pose proof (calculate_args _ _ _ H2) as Ha2.
  pose proof H1 as (loc1 & g1 & _ & _ & HR1)%calculate_Ok_inv.
  pose proof H2 as (loc2 & g2 & _ & _ & HR2)%calculate_Ok_inv.
  assert (elevation R1 = elevation R2) as Hel by (by subst).
  assert (N0 R1 = trial_counts cfg ∧ N0 R2 = trial_counts cfg) as [HN1 HN2]
    by (by subst).
  assert (same_azimuths R1 R2) as Haz.
  { eapply rows_of_width_same_azimuths; [|exact Hw1|exact Hw2].
    destruct Hs1 as (_ & -> & _), Hs2 as (_ & -> & _). by rewrite Hel. }
  assert (numerically_close (elevation R1) (elevation R2)) as Hclose.
  { rewrite <-Hel. apply Forall_Forall2_diag, Forall_true, close_refl. }
  assert (args R1 = args R2) as Hargs by congruence.
  pose proof (add_aligned R1 R2 Hs1 Hs2 Haz Hclose Hargs) as Hadd.
  eexists. split; [exact Hadd|]. simpl.
  split; [by rewrite HN1, HN2, zip_with_diag|].
  split; [done|]. split; [done|].
  by apply (add_well_shaped R1 R2 _ Hs1 Hs2 Hadd).
Qed.

(** X13.  A result of [calculate] depends on the azimuth grid only
    through its size and its values modulo 360: grids that agree modulo
    360, entry by entry, give the same outcome. *)
Theorem calculate_azimuths_mod_360 (batch : nat → Batch) (cfg : Config)
    (az : list Z) :
  Forall2 (λ a b, a `mod` 360 = b `mod` 360)%Z (azimuths cfg) az →
  calculate' batch (with_azimuths cfg az) = calculate' batch cfg.
Proof.
  intros Haz.
  pose proof (Forall2_length _ _ _ Haz) as Hlen.
  assert ((λ a, a `mod` 360)%Z <$> az = (λ a, a `mod` 360)%Z <$> azimuths cfg)
    as Hwrap.
  { symmetry. eapply fmap_Forall2_ext; [|by intros a b H; exact H].
    clear Hlen. induction Haz; constructor; auto. }
  assert (∀ bins loc,
    loop' batch (with_azimuths cfg az) bins loc = loop' batch cfg bins loc)
    as Hloop.
  { induction bins as [|i bins IH]; intros loc; simpl; [done|].
    assert (iteration' batch (with_azimuths cfg az) i loc
            = iteration' batch cfg i loc) as ->.
    { unfold iteration; simpl. rewrite Hwrap, <-Hlen. reflexivity. }
    destruct (iteration' batch cfg i loc); simpl; [apply IH|done]. }
  unfold calculate. rewrite Hloop.
  assert (initial (with_azimuths cfg az) = initial cfg) as ->.
  { unfold initial; simpl. by rewrite <-Hlen. }
  reflexivity.
Qed.
End calculate_compose.

Lemma calculate_runs_combine_witness :
  calculate (λ _, batch_correlated) horizon_distance0 horizon_angle0
    directivity0 degrees0 nan0 cfg0 = Ok run_correlated ∧
  calculate (λ _, batch_no_exit) horizon_distance0 horizon_angle0
    directivity0 degrees0 nan0 cfg0 = Ok run_no_exit ∧
  one_valued (directivity0 (prototype cfg0)
                ((λ a, a `mod` 360)%Z <$> azimuths cfg0)) ∧
  ∃ R, __add__ run_correlated run_no_exit = Ok R ∧
    N0 R = (λ n, int64_add n n) <$> trial_counts cfg0 ∧
    elevation R = elevation run_correlated ∧
    args R = args run_correlated ∧ well_shaped R.
Proof.
  assert (calculate (λ _, batch_correlated) horizon_distance0 horizon_angle0
            directivity0 degrees0 nan0 cfg0 = Ok run_correlated) as H1
    by by_evaluation.
  assert (calculate (λ _, batch_no_exit) horizon_distance0 horizon_angle0
            directivity0 degrees0 nan0 cfg0 = Ok run_no_exit) as H2
    by by_evaluation.
  split; [exact H1|]. split; [exact H2|]. split; [reflexivity|].
  exact (calculate_runs_combine horizon_distance0 horizon_angle0 directivity0
           degrees0 nan0 (λ _, batch_correlated) (λ _, batch_no_exit) cfg0
           run_correlated run_no_exit H1 H2 eq_refl eq_refl).
Defined.

Lemma calculate_azimuths_mod_360_witness :
  Forall2 (λ a b, a `mod` 360 = b `mod` 360)%Z (azimuths cfg3) [360; -270]%Z ∧
  calculate batches_middle horizon_distance0 horizon_angle0 directivity0
    degrees0 nan0 (with_azimuths cfg3 [360; -270]%Z)
  = calculate batches_middle horizon_distance0 horizon_angle0 directivity0
      degrees0 nan0 cfg3.
Proof.
  assert (Forall2 (λ a b, a `mod` 360 = b `mod` 360)%Z
            (azimuths cfg3) [360; -270]%Z) as H.
  { repeat constructor. }
  split; [exact H|].
  exact (calculate_azimuths_mod_360 horizon_distance0 horizon_angle0
           directivity0 degrees0 nan0 batches_middle cfg3 [360; -270]%Z H).
Defined.

(** ** Means of masked arrays stay within the range of their entries *)

Lemma float_of_nat_S (n : nat) :
  float_of_int (Z.of_nat (S n)) = 1 + float_of_int (Z.of_nat n).
Proof.
  unfold float_of_int. rewrite Nat2Z.inj_succ, <-Z.add_1_l.
  by rewrite Z2Qc_inj_add, Z2Qc_inj_1.
Qed.

Lemma np_sum_range (lo hi : Qc) (ys : list Qc) :
  Forall (λ y, lo ≤ y ≤ hi) ys →
  float_of_int (Z.of_nat (length ys)) * lo ≤ np_sum ys ∧
  np_sum ys ≤ float_of_int (Z.of_nat (length ys)) * hi.
Proof.
  induction 1 as [|y ys [Hlo Hhi] _ [IHlo IHhi]].
  { simpl. unfold float_of_int. change (Z.of_nat 0) with 0%Z.
    rewrite Z2Qc_inj_0, !Qcmult_0_l. done. }
  cbn [length np_sum foldr]. rewrite float_of_nat_S, !Qcmult_plus_distr_l, !Qcmult_1_l.
  split; by apply Qcplus_le_compat.
Qed.

Lemma np_mean_range (lo hi : Qc) (ys : list Qc) :
  ys ≠ [] → Forall (λ y, lo ≤ y ≤ hi) ys →
  lo ≤ np_sum ys / float_of_int (Z.of_nat (length ys)) ≤ hi.
Proof.
  intros Hne Hys. destruct (np_sum_range lo hi ys Hys) as [Hlo Hhi].
  assert (0 < float_of_int (Z.of_nat (length ys))) as Hn.
  { apply float_of_int_pos. destruct ys; [done|]. simpl. lia. }
  assert (float_of_int (Z.of_nat (length ys)) ≠ 0) as Hn0.
  { intros H0. rewrite H0 in Hn. by apply Qclt_not_eq in Hn. }
  split.
  - rewrite <-(Qcdiv_mult_l lo _ Hn0). apply Qcdiv_le_mono; [done|].
    by rewrite Qcmult_comm.
  - rewrite <-(Qcdiv_mult_l hi _ Hn0). apply Qcdiv_le_mono; [done|].
    by rewrite (Qcmult_comm hi).
Qed.

Lemma ma_mean_range (nan lo hi : Qc) (xs : list (option Qc)) :
  Forall (λ x, ∀ p, x = Some p → lo ≤ p ≤ hi) xs →
  Exists is_Some xs →
  lo ≤ stored_item nan (ma_mean xs) ≤ hi.
Proof.
  intros Hxs Hex. rewrite stored_ma_mean.
  assert (Forall (λ y, lo ≤ y ≤ hi) (compressed xs)) as Hys.
  { unfold compressed. clear Hex.
    induction Hxs as [|[p|] xs Hx _ IH]; csimpl; [constructor| |done].
    constructor; [by apply Hx|done]. }
  assert (compressed xs ≠ []) as Hne.
  { unfold compressed. clear Hys Hxs.
    induction Hex as [[p|] xs [q Hq]|[p|] xs _ IH]; csimpl; done. }
  destruct (compressed xs) as [|y ys] eqn:Hc; [done|].
  rewrite <-Hc in *. by apply np_mean_range.
Qed.

Section bin_means.
Context (batch : nat → Batch).
Context (distance_to_horizon horizon_angle : Qc → Z → Qc).
Context (directivity : Z → list Z → Value) (np_degrees : Qc → Qc).
Context (nan : Qc) (cfg : Config).

Local Abbreviation calculate' :=
  (calculate batch distance_to_horizon horizon_angle directivity np_degrees nan cfg).
Local Abbreviation suppressed' :=
  (suppressed distance_to_horizon horizon_angle cfg).

(** X14.  At an elevation with trials, each stored probability lies
    within the range of the per-trial values it averages: [pexit[i]] and
    [pdecay[i]] between any bounds that hold for the exit and decay
    probabilities that are not masked, and [ptrigger[i]] between 0 and 1,
    provided the averaged array has an entry that is not masked. *)
Theorem bin_means_in_range (R : EffectiveArea) (i : nat) :
  calculate' = Ok R →
  (i < length (elev cfg))%nat →
  trials (batch i) ≠ [] →
  (∀ lo hi,
     Forall (λ t, ∀ p, Pexit t = Some p → lo ≤ p ≤ hi) (trials (batch i)) →
     Exists (λ t, is_Some (Pexit t)) (trials (batch i)) →
     ∃ p, pexit R !! i = Some p ∧ lo ≤ p ≤ hi) ∧
  (∀ lo hi,
     Forall (λ t, ∀ p, Pdecay t = Some p → lo ≤ p ≤ hi) (trials (batch i)) →
     Exists (λ t, is_Some (Pdecay t)) (trials (batch i)) →
     ∃ p, pdecay R !! i = Some p ∧ lo ≤ p ≤ hi) ∧
  (Exists (λ t, is_Some (intensity t) ∨ suppressed' t = true)
     (trials (batch i)) →
   ∃ p, ptrigger R !! i = Some p ∧ 0 ≤ p ≤ 1).
Proof.
  intros HR Hi Hne.
  destruct (calculate_values batch distance_to_horizon horizon_angle
              directivity np_degrees nan cfg R i HR Hi) as [_ Hwritten].
  destruct (Hwritten Hne) as (Ni & _ & Hval).
  unfold result_values, written in Hval.
  injection Hval as _ Hpe Hpd Hpt _.
  split; [|split].
  - intros lo hi Hall Hex. eexists. split; [exact Hpe|].
    apply ma_mean_range.
    + apply Forall_fmap. eapply Forall_impl; [exact Hall|]. by intros t Ht.
    + apply Exists_fmap. eapply Exists_impl; [exact Hex|]. by intros t Ht.
  - intros lo hi Hall Hex. eexists. split; [exact Hpd|].
    apply ma_mean_range.
    + apply Forall_fmap. eapply Forall_impl; [exact Hall|]. by intros t Ht.
    + apply Exists_fmap. eapply Exists_impl; [exact Hex|]. by intros t Ht.
  - intros Hex. eexists. split; [exact Hpt|].
    unfold bin_ptrigger. rewrite trigger_fmap. apply ma_mean_range.
    + apply Forall_fmap, Forall_fmap, Forall_true. intros t p; simpl.
      destruct (trial_trigger _ _ _ t) as [[|]|]; simpl; intros [= <-];
        split; by_evaluation.
    + apply Exists_fmap, Exists_fmap. eapply Exists_impl; [exact Hex|].
      intros t Ht; simpl. unfold trial_trigger.
      destruct (suppressed' t) eqn:Hs;
        [exists (float_of_bool false); reflexivity|].
      destruct Ht as [[x Hx]|?]; [|congruence]. rewrite Hx.
      exists (float_of_bool (bool_decide (intensity_threshold < x))).
      reflexivity.
Qed.
End bin_means.

Lemma bin_means_in_range_witness :
  calculate (λ _, batch_correlated) horizon_distance0 horizon_angle0
    directivity0 degrees0 nan0 cfg0 = Ok run_correlated ∧
  (∃ p, pexit run_correlated !! 0%nat = Some p ∧ 0 ≤ p ≤ qc 1 2) ∧
  (∃ p, pdecay run_correlated !! 0%nat = Some p ∧ 0 ≤ p ≤ qc 1 2) ∧
  (∃ p, ptrigger run_correlated !! 0%nat = Some p ∧ 0 ≤ p ≤ 1).
Proof.
  assert (calculate (λ _, batch_correlated) horizon_distance0 horizon_angle0
            directivity0 degrees0 nan0 cfg0 = Ok run_correlated) as HR
    by by_evaluation.
  assert (0 < length (elev cfg0))%nat as Hi by (vm_compute; lia).
  assert (trials batch_correlated ≠ []) as Hne by discriminate.
  destruct (bin_means_in_range (λ _, batch_correlated) horizon_distance0
              horizon_angle0 directivity0 degrees0 nan0 cfg0 run_correlated
              0 HR Hi Hne) as (Hpe & Hpd & Hpt).
  split; [exact HR|]. split; [|split].
  - apply Hpe.
    + repeat apply Forall_cons_2; [| |apply Forall_nil_2];
        intros p [= <-]; split; by_evaluation.
    + apply Exists_cons_hd. by eexists.
  - apply Hpd.
    + repeat apply Forall_cons_2; [| |apply Forall_nil_2];
        intros p [= <-]; split; by_evaluation.
    + apply Exists_cons_hd. by eexists.
  - apply Hpt. apply Exists_cons_hd. left. by eexists.
Defined.

(** ** What a result records *)

Lemma make_args_altitude cfg g :
  make_args cfg g !! "altitude"%string = Some (VNum (altitude cfg)).
Proof. reflexivity. Qed.

Lemma make_args_trigger_SNR cfg snr g :
  make_args (with_trigger_SNR cfg snr) g
  = <["trigger_SNR"%string := VNum snr]> (make_args cfg g).
Proof.
  apply map_eq. intros k. unfold make_args; simpl.
  rewrite !lookup_insert. repeat case_decide; simplify_eq; done.
Qed.

Section calculate_records.
Context (batch : nat → Batch).
Context (distance_to_horizon horizon_angle : Qc → Z → Qc).
Context (directivity : Z → list Z → Value) (np_degrees : Qc → Qc).
Context (nan : Qc).

Local Abbreviation calculate' cfg :=
  (calculate batch distance_to_horizon horizon_angle directivity np_degrees nan cfg).
Local Abbreviation loop' cfg :=
  (loop batch distance_to_horizon horizon_angle directivity nan cfg).

(** X15.  A result of [calculate] always records its altitude, so
    [from_files] never misses the key on it; loaded as the second of two
    files, it is skipped when the run was at the default altitude 3.87553
    and is combined into the first file otherwise. *)
Theorem from_files_after_calculate (cfg : Config)
    (disk : gmap string EffectiveArea) (f0 f1 : string) (A R : EffectiveArea) :
  calculate' cfg = Ok R →
  disk !! f0 = Some A → disk !! f1 = Some R →
  from_files disk [f0; f1] =
    if decide (altitude cfg = default_altitude) then Ok A else __add__ A R.
Proof.
  intros HR H0 H1.
  apply calculate_args in HR.
  unfold from_files, from_files_rest, from_file. rewrite H0, H1; simpl.
  rewrite HR, make_args_altitude; simpl.
  destruct (decide (altitude cfg = default_altitude)) as [->|Hne].
  - by rewrite bool_decide_eq_true_2.
  - rewrite bool_decide_eq_false_2 by congruence.
    by destruct (__add__ A R).
Qed.

(** X16.  The trigger threshold [trigger_SNR] takes no part in the
    computation: with the same batches, a run under another threshold
    ends in the same error, or in the same result but for the entry
    ["trigger_SNR"] of its args. *)
Theorem calculate_ignores_trigger_SNR (cfg : Config) (snr : Qc) :
  calculate' (with_trigger_SNR cfg snr) =
    (λ R, with_args R (<["trigger_SNR"%string := VNum snr]> (args R)))
      <$> calculate' cfg.
Proof.
  assert (∀ bins loc,
    loop' (with_trigger_SNR cfg snr) bins loc = loop' cfg bins loc) as Hloop.
  { induction bins as [|i bins IH]; intros loc; simpl; [done|].
    change (iteration batch distance_to_horizon horizon_angle directivity nan
              (with_trigger_SNR cfg snr) i loc)
      with (iteration batch distance_to_horizon horizon_angle directivity nan
              cfg i loc).
    destruct (iteration _ _ _ _ _ cfg i loc); simpl; [apply IH|done]. }
  unfold calculate. rewrite Hloop.
  change (initial (with_trigger_SNR cfg snr)) with (initial cfg).
  destruct (loop' cfg _ _) as [loc|]; simpl; [|done].
  destruct (loc_gain loc) as [g|]; simpl; [|done].
  unfold with_args; simpl. by rewrite make_args_trigger_SNR.
Qed.
End calculate_records.

Lemma from_files_after_calculate_witness :
  calculate (λ _, batch_correlated) horizon_distance0 horizon_angle0
    directivity0 degrees0 nan0 cfg0 = Ok run_correlated ∧
  from_files (<["r.pkl"%string := run_correlated]> disk0)
    ["a.pkl"%string; "r.pkl"%string] =
    if decide (altitude cfg0 = default_altitude) then Ok runA
    else __add__ runA run_correlated.
Proof.
  assert (calculate (λ _, batch_correlated) horizon_distance0 horizon_angle0
            directivity0 degrees0 nan0 cfg0 = Ok run_correlated) as HR
    by by_evaluation.
  split; [exact HR|].
  exact (from_files_after_calculate (λ _, batch_correlated) horizon_distance0
           horizon_angle0 directivity0 degrees0 nan0 cfg0
           (<["r.pkl"%string := run_correlated]> disk0) "a.pkl" "r.pkl"
           runA run_correlated HR eq_refl eq_refl).
Defined.

(** ** The altitude of the field parameterization *)

Lemma Qabs_cases (x : Q) :
  ((0 <= x)%Q ∧ (Qabs x == x)%Q) ∨ ((x <= 0)%Q ∧ (Qabs x == - x)%Q).
Proof. apply Qabs_case; intros; [left|right]; split; auto; reflexivity. Qed.

(** From canonical rationals to rationals, where [lra] works. *)
Ltac qc_to_q :=
  unfold qc, Qclt, Qcle, Qcabs, Qcminus, Qcplus, Qcopp, Qcmult, Q2Qc in *;
  cbn [this] in *;
  rewrite ?Qred_correct in *.

Ltac split_Qabs :=
  repeat match goal with
  | |- context [Qabs ?x] =>
      let H := fresh in
      destruct (Qabs_cases x) as [[? H]|[? H]]; rewrite !H; clear H
  end.

(** Of two altitudes the higher one is strictly closer to [h] exactly
    when [h] is above their midpoint. *)
Lemma closer_iff (a b h : Qc) :
  a < b → Qcabs (b - h) < Qcabs (a - h) ↔ a + b < (1 + 1) * h.
Proof. qc_to_q. intros Hab. split_Qabs; split; intros; lra. Qed.

Lemma not_closer_iff (a b h : Qc) :
  a < b → Qcabs (a - h) ≤ Qcabs (b - h) ↔ (1 + 1) * h ≤ a + b.
Proof. qc_to_q. intros Hab. split_Qabs; split; intros; lra. Qed.

Lemma argmin_from_spec (l : list Qc) best ibest i xs :
  (ibest < i)%nat →
  l !! ibest = Some best →
  (∀ j y, (j < i)%nat → l !! j = Some y →
     best ≤ y ∧ ((j < ibest)%nat → best < y)) →
  (∀ k, l !! (i + k)%nat = xs !! k) →
  ∃ m, l !! argmin_from best ibest i xs = Some m ∧
    ∀ j y, l !! j = Some y →
      m ≤ y ∧ ((j < argmin_from best ibest i xs)%nat → m < y).
Proof.
  revert best ibest i.
  induction xs as [|x xs IH]; intros best ibest i Hi Hb Hpre Htl.
  - exists best. split; [done|]. intros j y Hj. apply Hpre; [|done].
    destruct (decide (j < i)%nat) as [|Hge]; [done|].
    specialize (Htl (j - i)%nat). replace (i + (j - i))%nat with j in Htl by lia.
    rewrite Hj in Htl. done.
  - simpl. pose proof (Htl 0%nat) as Hx. rewrite Nat.add_0_r in Hx. simpl in Hx.
    case_bool_decide as Hlt.
    + apply IH; [lia|done| |].
      * intros j y Hj Hy. destruct (decide (j = i)) as [->|Hne].
        { rewrite Hx in Hy. injection Hy as <-. split; [apply Qcle_refl|lia]. }
        destruct (Hpre j y ltac:(lia) Hy) as [Hle _].
        split; [|intros _]; [apply Qclt_le_weak|]; by eapply Qclt_le_trans.
      * intros k. etrans; [|exact (Htl (S k))]. f_equal. lia.
    + apply Qcnot_lt_le in Hlt. apply IH; [lia|done| |].
      * intros j y Hj Hy. destruct (decide (j = i)) as [->|Hne].
        { rewrite Hx in Hy. injection Hy as <-. split; [done|lia]. }
        apply Hpre; [lia|done].
      * intros k. etrans; [|exact (Htl (S k))]. f_equal. lia.
Qed.

(** [argmin] of a non-empty array returns the first index of a least
    entry. *)
Lemma np_argmin_spec (xs : list Qc) :
  xs ≠ [] →
  ∃ i m, np_argmin xs = Some i ∧ xs !! i = Some m ∧
    ∀ j y, xs !! j = Some y → m ≤ y ∧ ((j < i)%nat → m < y).
Proof.
  destruct xs as [|x xs]; [done|intros _].
  destruct (argmin_from_spec (x :: xs) x 0 1 xs) as (m & Hm & Hmin);
    [lia|done| |done|].
  { intros [|j] y Hj Hy; [|lia]. injection Hy as <-.
    split; [apply Qcle_refl|lia]. }
  by exists (argmin_from x 0 1 xs), m.
Qed.

(** X17.  Whatever the requested altitude, [calculate] finds a
    parameterization altitude: it is one of the tabulated altitudes, no
    tabulated altitude is closer to the requested one, and every
    tabulated altitude before it (that is, every lower one) is strictly
    farther: of two equally close altitudes the lower one is taken. *)
Theorem altitude_file_nearest (altitude : Qc) :
  ∃ i a, altitude_file altitude = Some a ∧ altitudes !! i = Some a ∧
    ∀ j b, altitudes !! j = Some b →
      Qcabs (a - altitude) ≤ Qcabs (b - altitude) ∧
      ((j < i)%nat → Qcabs (a - altitude) < Qcabs (b - altitude)).
Proof.
  destruct (np_argmin_spec ((λ a, Qcabs (a - altitude)) <$> altitudes))
    as (i & m & Harg & Hm & Hmin); [done|].
  rewrite list_lookup_fmap in Hm.
  destruct (altitudes !! i) as [a|] eqn:Ha; [|done]. injection Hm as <-.
  exists i, a. split; [|split; [done|]].
  - unfold altitude_file. rewrite Harg. done.
  - intros j b Hb. apply Hmin. by rewrite list_lookup_fmap, Hb.
Qed.

(** X18.  The parameterization altitude as a function of the requested
    one: 0.5 up to 0.75, 1 up to 1.5, 2 up to 2.5, 3 up to 3.5, 4 up to
    20.5 and 37 above; each boundary belongs to the lower altitude. *)
Theorem altitude_file_bands (altitude : Qc) :
  altitude_file altitude =
    Some (if bool_decide (altitude ≤ qc 3 4) then qc 1 2
          else if bool_decide (altitude ≤ qc 3 2) then 1
          else if bool_decide (altitude ≤ qc 5 2) then qc 2 1
          else if bool_decide (altitude ≤ qc 7 2) then qc 3 1
          else if bool_decide (altitude ≤ qc 41 2) then qc 4 1
          else qc 37 1).
Proof.
  destruct (np_argmin_spec ((λ a, Qcabs (a - altitude)) <$> altitudes))
    as (i & m & Harg & Hm & Hmin); [done|].
  unfold altitude_file. rewrite Harg. simpl.
  rewrite list_lookup_fmap in Hm.
  assert (H0 := Hmin 0%nat _ eq_refl). assert (H1 := Hmin 1%nat _ eq_refl).
  assert (H2 := Hmin 2%nat _ eq_refl). assert (H3 := Hmin 3%nat _ eq_refl).
  assert (H4 := Hmin 4%nat _ eq_refl). assert (H5 := Hmin 5%nat _ eq_refl).
  clear Hmin Harg.
  destruct i as [|[|[|[|[|[|i]]]]]]; simpl in Hm; [..|done]; injection Hm as <-;
    f_equal.
  all: destruct H0 as [H0 H0'], H1 as [H1 H1'], H2 as [H2 H2'],
         H3 as [H3 H3'], H4 as [H4 H4'], H5 as [H5 H5'].
  all: repeat match goal with
         | H : (_ < _)%nat → _ |- _ =>
             first [specialize (H ltac:(lia)) | clear H]
         end.
  all: repeat case_bool_decide; try reflexivity; exfalso.
  all: repeat match goal with
         | H : Qcabs (?a - ?h) < Qcabs (?b - ?h) |- _ =>
             apply (closer_iff b a h ltac:(reflexivity)) in H
         | H : Qcabs (?a - ?h) ≤ Qcabs (?b - ?h) |- _ =>
             first [apply (not_closer_iff a b h ltac:(reflexivity)) in H
                   |clear H]
         end.
  all: qc_to_q; lra.
Qed.

(** The default altitude, 3.87553 km, loads the fields of 4 km. *)
Example altitude_file_default :
  altitude_file default_altitude = Some (qc 4 1).
Proof. by_evaluation. Qed.
